(** * itscope: a client for the ITscope product-catalog search API

    A shallow embedding of the Go package [itscope] and the properties of
    its batching, retrying fetch and filtering code.

    The repository holds two revisions of the client:
    - the revision with a rate limiter and a bounded retry loop, whose
      aggregator walks the query groups one after the other (it is the one
      that uses [NewUnexpectedStatusCodeError] of error.go);
    - the revision of itscope.go, with a single attempt per query and an
      errgroup of goroutines as aggregator (module [Errgroup] below).
    [createQueryStrings], the filters and [GetProductData] are the same text
    in both. *)

From stdpp Require Import gmap strings list fin_maps.
From Stdlib Require Import ZArith Lia Ascii.

Local Open Scope Z_scope.

(** ** Go's [int] and slice expressions *)

(** [int] is 64 bits wide on the platforms the client is built for. *)
Definition max_int : Z := 2 ^ 63 - 1.
Definition min_int : Z := - 2 ^ 63.

(** Signed wrap-around of a mathematical result into [int]. *)
Definition int_wrap (z : Z) : Z := (z + 2 ^ 63) mod 2 ^ 64 - 2 ^ 63.

Definition int_add (a b : Z) : Z := int_wrap (a + b).
Definition int_sub (a b : Z) : Z := int_wrap (a - b).
Definition int_mul (a b : Z) : Z := int_wrap (a * b).

(** [a / b] and [a % b] truncate toward zero; a zero divisor panics
    ([None]). *)
Definition int_div (a b : Z) : option Z :=
  if bool_decide (b = 0) then None else Some (int_wrap (Z.quot a b)).
Definition int_mod (a b : Z) : option Z :=
  if bool_decide (b = 0) then None else Some (Z.rem a b).

(** [len(s)]. *)
Definition len {A} (s : list A) : Z := Z.of_nat (length s).

(** [s[lo:]] and [s[lo:hi]]; an index out of range panics ([None]).  The
    capacity of the slice is taken to be its length, the least a caller can
    provide. *)
Definition slice_from {A} (s : list A) (lo : Z) : option (list A) :=
  if bool_decide (0 ≤ lo ∧ lo ≤ len s) then Some (drop (Z.to_nat lo) s)
  else None.

Definition slice_range {A} (s : list A) (lo hi : Z) : option (list A) :=
  if bool_decide (0 ≤ lo ∧ lo ≤ hi ∧ hi ≤ len s)
  then Some (take (Z.to_nat (hi - lo)) (drop (Z.to_nat lo) s))
  else None.

(** ** The batcher *)

(** The query of one slice of identifiers:
    ["id=" + strings.Join(slice, ";id=")]. *)
Definition query_of_slice (slice : list string) : string :=
  "id=" +:+ String.concat ";id=" slice.

(** The body of [for i := pages; i > 0; i--]; the loop variable is the
    structural argument, [requestQuerys] the slice appended to. *)
Fixpoint createQueryStrings_loop (productIDs : list string) (length pages : Z)
    (i : nat) (requestQuerys : list string) : option (list string) :=
  match i with
  | O => Some requestQuerys
  | S i' =>
      let start := int_mul (int_sub (Z.of_nat i) 1) length in
      let end_ := int_mul (Z.of_nat i) length in
      slice ← (if bool_decide (Z.of_nat i = pages)
               then slice_from productIDs start
               else slice_range productIDs start end_);
      let query := query_of_slice slice in
      createQueryStrings_loop productIDs length pages i'
        (requestQuerys ++ [query])
  end.

(** The number of pages: [len/length], one more when there is a remainder. *)
Definition page_count (n length : Z) : option Z :=
  q ← int_div n length;
  r ← int_mod n length;
  Some (if bool_decide (r > 0) then int_add q 1 else q).

Definition createQueryStrings (productIDs : list string) (length : Z)
  : option (list string) :=
  pages ← page_count (len productIDs) length;
  createQueryStrings_loop productIDs length pages (Z.to_nat pages) [].

(** The slices the same loop takes, before they are rendered as queries:
    the query groups. *)
Fixpoint queryGroups_loop (productIDs : list string) (length pages : Z)
    (i : nat) (groups : list (list string)) : option (list (list string)) :=
  match i with
  | O => Some groups
  | S i' =>
      let start := int_mul (int_sub (Z.of_nat i) 1) length in
      let end_ := int_mul (Z.of_nat i) length in
      slice ← (if bool_decide (Z.of_nat i = pages)
               then slice_from productIDs start
               else slice_range productIDs start end_);
      queryGroups_loop productIDs length pages i' (groups ++ [slice])
  end.

Definition queryGroups (productIDs : list string) (length : Z)
  : option (list (list string)) :=
  pages ← page_count (len productIDs) length;
  queryGroups_loop productIDs length pages (Z.to_nat pages) [].

(** Reference chunking, used to describe the result: chunk [i] (counted
    from one) holds the identifiers at positions [(i-1)*L .. i*L-1]; the
    chunks are listed from chunk [i] down to chunk one. *)
Fixpoint chunks_down (ids : list string) (L i : nat) : list (list string) :=
  match i with
  | O => []
  | S i' => take L (drop (i' * L) ids) :: chunks_down ids L i'
  end.

(** The least [p] with [n <= p * L]. *)
Definition ceil_div (n L : Z) : Z := (n + L - 1) / L.

(** ** Data model *)

(** Modelled from the spec: the struct declarations ([Product],
    [ProductType], the two containers and [Language]) are not part of the
    sources at hand; each record keeps the fields the functions read. *)
Definition Language : Type := string.

Record Accessory := { ReferencedProductID : string }.

Record Product := {
  Puid : string;
  ProductTypeID : string;
  Accessories : list Accessory;
  Image1 : string; Image2 : string; Image3 : string;
  Image4 : string; Image5 : string
}.

Record ProductTypeGroup := { ProductTypeGroup_ID : string }.

Record ProductType := {
  ProductType_ID : string;
  ProductType_ProductTypeGroup : ProductTypeGroup
}.

Record ProductsContainer := { ProductsContainer_Product : list Product }.
(** The slice of a decoded catalog is nil ([None]) when the body has no
    [producttype] key. *)
Record ProductTypesContainer := {
  ProductTypes : option (list ProductType)
}.

(** [&ProductsContainer{}]. *)
Definition empty_container : ProductsContainer :=
  {| ProductsContainer_Product := [] |}.

(** ** error.go *)

Record UnexpectedStatusCodeError := { Message : string; StatusCode : Z }.

(** Error values.  [ErrorString] is an error made by [fmt.Errorf] from a
    constant text or by a library; [ErrorFormat format] is
    [fmt.Errorf(format)] with no operand; [WrapError prefix err] is
    [fmt.Errorf(prefix + ": %w", err)]. *)
Inductive error :=
  | ErrorString (msg : string)
  | ErrorFormat (format : string)
  | WrapError (prefix : string) (err : error)
  | StatusCodeError (e : UnexpectedStatusCodeError).

(** [errors.Unwrap], repeated to the innermost error. *)
Fixpoint error_root (e : error) : error :=
  match e with
  | WrapError _ err => error_root err
  | _ => e
  end.

(** ** Bytes of the Go library *)

Definition is_digit (c : ascii) : bool :=
  (48 <=? nat_of_ascii c)%nat && (nat_of_ascii c <=? 57)%nat.
Definition is_upper (c : ascii) : bool :=
  (65 <=? nat_of_ascii c)%nat && (nat_of_ascii c <=? 90)%nat.
Definition is_lower (c : ascii) : bool :=
  (97 <=? nat_of_ascii c)%nat && (nat_of_ascii c <=? 122)%nat.

Definition one_of (chars : string) (c : ascii) : bool :=
  existsb (Ascii.eqb c) (String.list_ascii_of_string chars).

Fixpoint string_forallb (f : ascii → bool) (s : string) : bool :=
  match s with
  | EmptyString => true
  | String c s' => f c && string_forallb f s'
  end.

Module http.
Definition StatusOK : Z := 200.
Definition StatusNotFound : Z := 404.
Definition MethodGet : string := "GET".

(** A request.  [Header] is the map of the header, from canonical keys to
    the values under them. *)
Record Request := {
  Method : string;
  URL : string;
  Header : gmap string (list string)
}.

Record Response := {
  Status : string;
  StatusCode : Z;
  Body : string
}.

(** [http.NewRequestWithContext(ctx, http.MethodGet, url, nil)].  It
    fails on a nil context, an invalid method or a URL that does not
    parse; the callers pass a live context, [MethodGet] and a URL made of
    constant text around a query-escaped segment, so it is total here. *)
Definition NewRequest (method url : string) : Request :=
  {| Method := method; URL := url; Header := ∅ |}.

(** The bytes of a header field name: letters, digits and some marks. *)
Definition validHeaderFieldByte (c : ascii) : bool :=
  is_digit c || is_upper c || is_lower c || one_of "!#$%&'*+-.^_`|~" c.

(** An upper-case letter at the start and after each hyphen, lower-case
    letters elsewhere; [upper] says which of the two the next byte is
    held to. *)
Fixpoint canonical_case (upper : bool) (s : string) : string :=
  match s with
  | EmptyString => EmptyString
  | String c s' =>
      let c :=
        if upper && is_lower c then ascii_of_nat (nat_of_ascii c - 32)
        else if negb upper && is_upper c
             then ascii_of_nat (nat_of_ascii c + 32)
             else c in
      String c (canonical_case (Ascii.eqb c "-") s')
  end.

(** [http.CanonicalHeaderKey] of the Go library: a key made of field
    bytes only is put in canonical case, any other key is left as it
    is. *)
Definition CanonicalHeaderKey (s : string) : string :=
  if string_forallb validHeaderFieldByte s then canonical_case true s else s.

(** [Header.Add]: the value is appended to the values under the
    canonical form of the key. *)
Definition Header_Add (r : Request) (key value : string) : Request :=
  let key := CanonicalHeaderKey key in
  {| Method := Method r; URL := URL r;
     Header := <[key := default [] (Header r !! key) ++ [value]]> (Header r) |}.

(** [Header.Set]: the value becomes the only one under the canonical form
    of the key. *)
Definition Header_Set (r : Request) (key value : string) : Request :=
  {| Method := Method r; URL := URL r;
     Header := <[CanonicalHeaderKey key := [value]]> (Header r) |}.

(** The standard base64 encoding of the Go library: three bytes give four
    characters, and the last group is padded with [=]. *)
Definition base64_char (n : nat) : ascii :=
  nth n
    (String.list_ascii_of_string
       "ABCDEFGHIJKLMNOPQRSTUVWXYZabcdefghijklmnopqrstuvwxyz0123456789+/")
    "A"%char.

Fixpoint base64_bytes (bytes : list nat) : string :=
  match bytes with
  | [] => EmptyString
  | [a] =>
      String (base64_char (a / 4))
        (String (base64_char (a mod 4 * 16)) "==")
  | [a; b] =>
      String (base64_char (a / 4))
        (String (base64_char (a mod 4 * 16 + b / 16))
           (String (base64_char (b mod 16 * 4)) "="))
  | a :: b :: c :: bytes' =>
      String (base64_char (a / 4))
        (String (base64_char (a mod 4 * 16 + b / 16))
           (String (base64_char (b mod 16 * 4 + c / 64))
              (String (base64_char (c mod 64)) (base64_bytes bytes'))))
  end%nat.

Definition base64_EncodeToString (s : string) : string :=
  base64_bytes (nat_of_ascii <$> String.list_ascii_of_string s).

(** [basicAuth]: the encoding of user name, colon and password. *)
Definition basicAuth (username password : string) : string :=
  base64_EncodeToString (username +:+ ":" +:+ password).

(** [SetBasicAuth] sets the [Authorization] entry of the header. *)
Definition SetBasicAuth (r : Request) (username password : string)
  : Request :=
  Header_Set r "Authorization" ("Basic " +:+ basicAuth username password).
End http.

Definition NewUnexpectedStatusCodeError (response : http.Response)
  : UnexpectedStatusCodeError :=
  {| StatusCode := http.StatusCode response;
     Message := http.Status response |}.

Definition ErrNotFound : UnexpectedStatusCodeError :=
  {| Message := ""; StatusCode := http.StatusNotFound |}.

(** [UnexpectedStatusCodeError.Error]. *)
Definition UnexpectedStatusCodeError_Error (e : UnexpectedStatusCodeError)
  : string := Message e.

(** What the method [Is] may be handed: a pointer to a status-code error,
    as [ErrNotFound] is, or an error of any other dynamic type, among them
    the status-code errors that [NewUnexpectedStatusCodeError] makes, which
    are values and not pointers. *)
Inductive target :=
  | PointerTarget (e : UnexpectedStatusCodeError)
  | OtherTarget (err : error).

(** The method [Is]: the type assertion to the pointer type has to succeed,
    and the codes have to agree. *)
Definition UnexpectedStatusCodeError_Is (e : UnexpectedStatusCodeError)
    (tgt : target) : bool :=
  match tgt with
  | PointerTarget target => bool_decide (StatusCode e = StatusCode target)
  | OtherTarget _ => false
  end.

(** ** The client and its surroundings *)

Record ITScopeCommunicator := {
  username : string;
  password : string;
  userAgent : string;
  language : Language;
  CompanyName : string
}.

(** [New]; the HTTP client and the limiter (6 tokens, 6 per second) it
    creates are the [World] below. *)
Definition New (companyName userName password : string) (language : Language)
  : ITScopeCommunicator :=
  {| CompanyName := companyName;
     userAgent := companyName +:+ "-ITS_ApiModule-0.1";
     username := userName;
     password := password;
     language := language |}.

Definition SetLanguage (its : ITScopeCommunicator) (language : Language)
  : ITScopeCommunicator :=
  {| CompanyName := CompanyName its; userAgent := userAgent its;
     username := username its; password := password its;
     language := language |}.

(** What one call of [client.Do] comes back with: an error (the response is
    then never read), or a response. *)
Inductive RoundTrip :=
  | DoError (err : error)
  | DoResponse (response : http.Response).

(** Everything outside the package.  [client_Do k request] is the outcome
    of the [k]-th request the client sends (counted from zero) and
    [limiter_Wait k] the outcome of the [k]-th wait for a token, so that a
    server or a limiter may answer differently each time; cancellation of
    the context shows as an error of either.  [json_*] decode a body,
    [QueryEscape] is [url.QueryEscape], and [range_order] is the order in
    which the runtime walks a map, which it picks anew every time. *)
Record World := {
  client_Do : nat → http.Request → RoundTrip;
  limiter_Wait : nat → option error;
  json_ProductsContainer : string → error + ProductsContainer;
  json_ProductTypesContainer : string → error + ProductTypesContainer;
  QueryEscape : string → string;
  range_order : gmap string Product → list (string * Product)
}.

(** A [range_order] is any enumeration of the entries of the map. *)
Definition range_order_ok (w : World) : Prop :=
  ∀ m, range_order w m ≡ₚ map_to_list m.

(** What a run has done so far: the requests sent, the number of waits for
    a token, and the number of four-second sleeps. *)
Record Trace := {
  sent : list http.Request;
  waits : nat;
  sleeps : nat
}.

Definition start : Trace := {| sent := []; waits := 0; sleeps := 0 |}.

(** Computations over the trace; [None] is a run-time panic. *)
Definition IO (A : Type) : Type := Trace → option A * Trace.

Definition ret {A} (a : A) : IO A := λ t, (Some a, t).
Definition panic {A} : IO A := λ t, (None, t).
Definition bind {A B} (m : IO A) (k : A → IO B) : IO B :=
  λ t, match m t with
       | (Some a, t') => k a t'
       | (None, t') => (None, t')
       end.
Definition lift {A} (o : option A) : IO A :=
  match o with Some a => ret a | None => panic end.

Notation "'do' x <- m ; k" := (bind m (λ x, k))
  (at level 10, x name, m at level 100, k at level 200,
   format "'[v' 'do'  x  <-  m ; '/' k ']'").
Notation "'do' ' p <- m ; k" := (bind m (λ x, match x with p => k end))
  (at level 10, p pattern, m at level 100, k at level 200).

Definition Do (w : World) (request : http.Request) : IO RoundTrip :=
  λ t, (Some (client_Do w (length (sent t)) request),
        {| sent := sent t ++ [request]; waits := waits t;
           sleeps := sleeps t |}).

Definition Wait (w : World) : IO (option error) :=
  λ t, (Some (limiter_Wait w (waits t)),
        {| sent := sent t; waits := S (waits t); sleeps := sleeps t |}).

(** [time.Sleep(4 * time.Second)]. *)
Definition Sleep : IO unit :=
  λ t, (Some tt,
        {| sent := sent t; waits := waits t; sleeps := S (sleeps t) |}).

(** The number of network requests of a run. *)
Definition requests (t : Trace) : nat := length (sent t).

(** ** The client: authentication and the query executor *)

(** A nil slice ranges and measures as the empty one. *)
Definition elems {A} (s : option (list A)) : list A := default [] s.

(** [authenticateRequest] fills in the request it is given; the request
    comes back next to the error. *)
Definition authenticateRequest (its : ITScopeCommunicator)
    (request : http.Request) : option error * http.Request :=
  if bool_decide (username its = "" ∨ password its = "")
  then (Some (ErrorString "no username or password set"), request)
  else
    let request := http.SetBasicAuth request (username its) (password its) in
    let request := http.Header_Add request "Accept" "application/json" in
    let request := http.Header_Add request "UserAgent" (userAgent its) in
    let request := http.Header_Add request "Accept-Language" (language its) in
    (None, request).

(** The missing-credentials error, under whatever context it is wrapped. *)
Definition missing_credentials (e : error) : Prop :=
  error_root e = ErrorString "no username or password set".

(** How the retry loop is left: by a [return] inside it, or at its end
    (the condition fails, or [break]) with the variables [response] and
    [err] as they stand. *)
Inductive loop_exit :=
  | LoopReturn (err : error)
  | LoopEnd (response : option http.Response) (err : option error).

(** [response.StatusCode != http.StatusOK &&
     response.StatusCode != http.StatusNotFound]. *)
Definition retry_status (response : http.Response) : bool :=
  bool_decide (http.StatusCode response ≠ http.StatusOK)
  && bool_decide (http.StatusCode response ≠ http.StatusNotFound).

(** [for retries > 0 { ... }] of [GetProductsFromQuery].  [retries] only
    ever goes down from 3, one step per failed attempt.  The message logged
    before the sleep is left out of the trace. *)
Fixpoint GetProductsFromQuery_loop (w : World) (request : http.Request)
    (retries : nat) (response : option http.Response) (err : option error)
  : IO loop_exit :=
  match retries with
  | O => ret (LoopEnd response err)
  | S retries' =>
      do err <- Wait w;
      match err with
      | Some e => ret (LoopReturn (WrapError "limiter timeout" e))
      | None =>
          do rt <- Do w request;
          match rt with
          | DoError e =>
              do _ <- Sleep;
              GetProductsFromQuery_loop w request retries' None (Some e)
          | DoResponse r =>
              if retry_status r
              then do _ <- Sleep;
                   GetProductsFromQuery_loop w request retries' (Some r) None
              else ret (LoopEnd (Some r) None)
          end
      end
  end.

Definition search_url (w : World) (query : string) : string :=
  "https://api.itscope.com/2.0/products/search/" +:+ QueryEscape w query
  +:+ "/standard.json?realtime=false&plzproducts=false&page=1&item=0&sort=DEFAULT".

(** [GetProductsFromQuery].  The deferred function closes the body and
    assigns to the local [err], which is not a result of the function: it
    changes nothing of what is returned. *)
Definition GetProductsFromQuery (w : World) (its : ITScopeCommunicator)
    (query : string) : IO (option ProductsContainer * option error) :=
  let urlString := search_url w query in
  let request := http.NewRequest http.MethodGet urlString in
  let '(err, request) := authenticateRequest its request in
  match err with
  | Some e => ret (None, Some (WrapError "GetProductsFromQuery2" e))
  | None =>
      do exit <- GetProductsFromQuery_loop w request 3 None None;
      match exit with
      | LoopReturn e => ret (None, Some e)
      | LoopEnd _ (Some e) =>
          ret (None, Some (WrapError "GetProductsFromQuery" e))
      | LoopEnd None None => panic
      | LoopEnd (Some response) None =>
          if bool_decide (http.StatusCode response = http.StatusNotFound)
          then ret (Some empty_container, None)
          else if bool_decide (http.StatusCode response ≠ http.StatusOK)
          then ret (None, Some (StatusCodeError
                                  (NewUnexpectedStatusCodeError response)))
          else match json_ProductsContainer w (http.Body response) with
               | inl e => ret (None, Some e)
               | inr products => ret (Some products, None)
               end
      end
  end.

(** [GetProductData]. *)
Definition GetProductData (w : World) (its : ITScopeCommunicator)
    (productSKU : string) : IO (option Product * option error) :=
  do '(productContainer, err) <-
    GetProductsFromQuery w its ("distpid=" +:+ productSKU);
  match err with
  | Some e => ret (None, Some (WrapError "could not retrieve product data" e))
  | None =>
      do productContainer <- lift productContainer;
      match ProductsContainer_Product productContainer with
      | product0 :: _ => ret (Some product0, None)
      | [] => ret (None, None)
      end
  end.

(** The retry loop of [GetAllProductTypes]: the same as above, with the
    sleep before the decrement. *)
Fixpoint GetAllProductTypes_loop (w : World) (request : http.Request)
    (retries : nat) (response : option http.Response) (err : option error)
  : IO loop_exit :=
  match retries with
  | O => ret (LoopEnd response err)
  | S retries' =>
      do err <- Wait w;
      match err with
      | Some e => ret (LoopReturn (WrapError "limiter timeout" e))
      | None =>
          do rt <- Do w request;
          match rt with
          | DoError e =>
              do _ <- Sleep;
              GetAllProductTypes_loop w request retries' None (Some e)
          | DoResponse r =>
              if retry_status r
              then do _ <- Sleep;
                   GetAllProductTypes_loop w request retries' (Some r) None
              else ret (LoopEnd (Some r) None)
          end
      end
  end.

Definition producttypes_url : string :=
  "https://api.itscope.com/2.0/products/producttypes/producttype.json".

(** [GetAllProductTypes]. *)
Definition GetAllProductTypes (w : World) (its : ITScopeCommunicator)
  : IO (option (list ProductType) * option error) :=
  let request := http.NewRequest http.MethodGet producttypes_url in
  let '(err, request) := authenticateRequest its request in
  match err with
  | Some e =>
      ret (None, Some (WrapError "could not retrieve product types" e))
  | None =>
      do exit <- GetAllProductTypes_loop w request 3 None None;
      match exit with
      | LoopReturn e => ret (None, Some e)
      | LoopEnd _ (Some e) =>
          ret (None, Some (WrapError "could not retrieve product types" e))
      | LoopEnd None None => panic
      | LoopEnd (Some response) None =>
          if bool_decide (http.StatusCode response = http.StatusNotFound)
          then ret (Some [], None)
          else if bool_decide (http.StatusCode response ≠ http.StatusOK)
          then ret (None, Some (StatusCodeError
                                  (NewUnexpectedStatusCodeError response)))
          else match json_ProductTypesContainer w (http.Body response) with
               | inl e =>
                   ret (None,
                        Some (WrapError "could not retrieve product types" e))
               | inr productTypes => ret (ProductTypes productTypes, None)
               end
      end
  end.

(** ** The fan-out aggregator, one group after the other *)

(** [for _, query := range queryStrings { ... }] with its early return. *)
Fixpoint GetProductAccessoriesFromList_range (w : World)
    (its : ITScopeCommunicator) (queryStrings : list string)
    (productList : list Product)
  : IO (option (list Product) * option error) :=
  match queryStrings with
  | [] => ret (Some productList, None)
  | query :: queryStrings' =>
      do '(product, err) <- GetProductsFromQuery w its query;
      match err with
      | Some e => ret (None, Some e)
      | None =>
          do product <- lift product;
          GetProductAccessoriesFromList_range w its queryStrings'
            (productList ++ ProductsContainer_Product product)
      end
  end.

Definition GetProductAccessoriesFromList (w : World)
    (its : ITScopeCommunicator) (products : list string)
  : IO (option (list Product) * option error) :=
  if bool_decide (len products = 0) then ret (None, None)
  else
    do queryStrings <- lift (createQueryStrings products 50);
    GetProductAccessoriesFromList_range w its queryStrings [].

(** ** Filters and the product assembler *)

Definition GetProductImages (product : Product) : list string :=
  let imageUrls := [] in
  let imageUrls :=
    if bool_decide (Image1 product ≠ "") then imageUrls ++ [Image1 product]
    else imageUrls in
  let imageUrls :=
    if bool_decide (Image2 product ≠ "") then imageUrls ++ [Image2 product]
    else imageUrls in
  let imageUrls :=
    if bool_decide (Image3 product ≠ "") then imageUrls ++ [Image3 product]
    else imageUrls in
  let imageUrls :=
    if bool_decide (Image4 product ≠ "") then imageUrls ++ [Image4 product]
    else imageUrls in
  let imageUrls :=
    if bool_decide (Image5 product ≠ "") then imageUrls ++ [Image5 product]
    else imageUrls in
  imageUrls.

Definition FilterProductTypesByGroupId (groupId : string)
    (productTypes : list ProductType) : list ProductType :=
  foldl (λ filteredTypes productType,
           if bool_decide
                (ProductTypeGroup_ID (ProductType_ProductTypeGroup productType)
                 = groupId)
           then filteredTypes ++ [productType] else filteredTypes)
        [] productTypes.

Definition FilterProductTypesById (id : string)
    (productTypes : list ProductType) : list ProductType :=
  foldl (λ filteredTypes productType,
           if bool_decide (ProductType_ID productType = id)
           then filteredTypes ++ [productType] else filteredTypes)
        [] productTypes.

(** The test of the inner loop of [FilterProductsByTypeList]. *)
Definition type_matches (product : Product) (productType : ProductType)
  : bool :=
  bool_decide (ProductTypeID product = ProductType_ID productType)
  && bool_decide (ProductTypeID product ≠ "")
  && bool_decide
       (ProductTypeGroup_ID (ProductType_ProductTypeGroup productType) ≠ "").

(** The map [filteredProducts] after the two nested loops. *)
Definition filteredProducts_of (products : list Product)
    (typeList : list ProductType) : gmap string Product :=
  foldl (λ filteredProducts productType,
           foldl (λ filteredProducts product,
                    if type_matches product productType
                    then <[Puid product := product]> filteredProducts
                    else filteredProducts)
                 filteredProducts products)
        ∅ typeList.

(** [FilterProductsByTypeList]: the array is filled with the values of the
    map in the order the runtime ranges over it. *)
Definition FilterProductsByTypeList (w : World) (products : list Product)
    (typeList : list ProductType) : list Product :=
  let filteredProducts := filteredProducts_of products typeList in
  (range_order w filteredProducts).*2.

(** [GetProductAccessories].  The product comes as a pointer; reading the
    accessories of the nil pointer ([None]) panics. *)
Definition GetProductAccessories (w : World) (its : ITScopeCommunicator)
    (product : option Product)
  : IO (option (list Product) * option error) :=
  do product <- lift product;
  let accessoryIds := ReferencedProductID <$> Accessories product in
  do '(accessories, err) <- GetProductAccessoriesFromList w its accessoryIds;
  match err with
  | Some e => ret (None, Some (WrapError "GetProductAccessories" e))
  | None => ret (accessories, None)
  end.

(** [GetServiceTypeAccessoriesOfProduct]; the pointer to the product is
    handed on to [GetProductAccessories] as it is. *)
Definition GetServiceTypeAccessoriesOfProduct (w : World)
    (its : ITScopeCommunicator) (product : option Product)
  : IO (option (list Product) * option error) :=
  do '(productTypes, err) <- GetAllProductTypes w its;
  match err with
  | Some e =>
      ret (None, Some (WrapError "GetServiceTypeAccessoriesOfProduct" e))
  | None =>
      do '(accessories, err) <- GetProductAccessories w its product;
      match err with
      | Some e =>
          ret (None, Some (WrapError "GetServiceTypeAccessoriesOfProduct" e))
      | None =>
          let serviceTypes :=
            FilterProductTypesByGroupId "SSP" (elems productTypes) in
          ret (Some (FilterProductsByTypeList w (elems accessories)
                       serviceTypes), None)
      end
  end.

(** ** The revision of itscope.go: one attempt, an errgroup of goroutines *)

Module Errgroup.

(** [GetProductsFromQuery] of itscope.go: no limiter, no retry, errors
    handed on as they come. *)
Definition GetProductsFromQuery (w : World) (its : ITScopeCommunicator)
    (query : string) : IO (option ProductsContainer * option error) :=
  let urlString := search_url w query in
  let request := http.NewRequest http.MethodGet urlString in
  let '(err, request) := authenticateRequest its request in
  match err with
  | Some e => ret (None, Some e)
  | None =>
      do rt <- Do w request;
      match rt with
      | DoError e => ret (None, Some (WrapError "product query" e))
      | DoResponse response =>
          if bool_decide (http.StatusCode response = http.StatusNotFound)
          then ret (Some empty_container, None)
          else if bool_decide (http.StatusCode response ≠ http.StatusOK)
          then ret (None, Some (ErrorFormat (http.Status response)))
          else match json_ProductsContainer w (http.Body response) with
               | inl e => ret (None, Some e)
               | inr products => ret (Some products, None)
               end
      end
  end.

Definition GetProductData (w : World) (its : ITScopeCommunicator)
    (productSKU : string) : IO (option Product * option error) :=
  do '(productContainer, err) <-
    GetProductsFromQuery w its ("distpid=" +:+ productSKU);
  match err with
  | Some e => ret (None, Some (WrapError "could not retrieve product data" e))
  | None =>
      do productContainer <- lift productContainer;
      match ProductsContainer_Product productContainer with
      | product0 :: _ => ret (Some product0, None)
      | [] => ret (None, None)
      end
  end.

Definition GetAllProductTypes (w : World) (its : ITScopeCommunicator)
  : IO (option (list ProductType) * option error) :=
  let request := http.NewRequest http.MethodGet producttypes_url in
  let '(err, request) := authenticateRequest its request in
  match err with
  | Some e => ret (None, Some e)
  | None =>
      do rt <- Do w request;
      match rt with
      | DoError e => ret (None, Some e)
      | DoResponse response =>
          if bool_decide (http.StatusCode response = http.StatusNotFound)
          then ret (Some [], None)
          else if bool_decide (http.StatusCode response ≠ http.StatusOK)
          then ret (None, Some (ErrorFormat (http.Status response)))
          else match json_ProductTypesContainer w (http.Body response) with
               | inl e => ret (None, Some e)
               | inr productTypes => ret (ProductTypes productTypes, None)
               end
      end
  end.

(** What the goroutines of one call share: the slice [productList], which
    they append to under the mutex, and the error the errgroup keeps, which
    is the first one a goroutine returns. *)
Record Shared := {
  productList : list Product;
  group_err : option error
}.

(** The function handed to [wg.Go], run from its request to its return. *)
Definition worker (w : World) (its : ITScopeCommunicator) (query : string)
    (sh : Shared) : IO Shared :=
  do '(product, err) <- GetProductsFromQuery w its query;
  match err with
  | Some e =>
      ret {| productList := productList sh;
             group_err := match group_err sh with
                          | Some e0 => Some e0
                          | None => Some e
                          end |}
  | None =>
      do product <- lift product;
      ret {| productList := productList sh ++ ProductsContainer_Product product;
             group_err := group_err sh |}
  end.

(** The goroutines in the order in which they run. *)
Fixpoint run_workers (w : World) (its : ITScopeCommunicator)
    (queries : list string) (sh : Shared) : IO Shared :=
  match queries with
  | [] => ret sh
  | query :: queries' =>
      do sh <- worker w its query sh;
      run_workers w its queries' sh
  end.

(** [GetProductAccessoriesFromList] of itscope.go, for the runs in which
    the goroutines do not overlap: [schedule] is the order in which the
    scheduler runs them, a rearrangement of the order in which they are
    started.  The semaphore of 20 admits every such run.  In
    [return productList, wg.Wait()] the variable is read once [Wait] has
    returned, as the compiler orders a call before the read of a variable
    next to it; it is in that order only that a run without error returns
    any record at all. *)
Definition GetProductAccessoriesFromList (w : World)
    (its : ITScopeCommunicator)
    (schedule : list string → list string) (products : list string)
  : IO (option (list Product) * option error) :=
  if bool_decide (len products = 0) then ret (None, None)
  else
    do queryStrings <- lift (createQueryStrings products 50);
    do sh <- run_workers w its (schedule queryStrings)
               {| productList := []; group_err := None |};
    ret (Some (productList sh), group_err sh).

End Errgroup.

(** ** Describing runs *)

(** An outcome of [client.Do] after which the loop tries again. *)
Definition transient (rt : RoundTrip) : bool :=
  match rt with
  | DoError _ => true
  | DoResponse r => retry_status r
  end.

(** The outcome of the [k]-th request sent from trace [t] on, and of the
    [k]-th wait for a token from [t] on (both counted from zero). *)
Definition attempt (w : World) (t : Trace) (request : http.Request)
    (k : nat) : RoundTrip :=
  client_Do w (length (sent t) + k) request.

Definition permit (w : World) (t : Trace) (k : nat) : option error :=
  limiter_Wait w (waits t + k).

(** The trace after a wait that failed, after an attempt answered for good,
    and after an attempt that is to be retried. *)
Definition waited (t : Trace) : Trace :=
  {| sent := sent t; waits := S (waits t); sleeps := sleeps t |}.

Definition answered (t : Trace) (request : http.Request) : Trace :=
  {| sent := sent t ++ [request]; waits := S (waits t); sleeps := sleeps t |}.

Definition retried (t : Trace) (request : http.Request) : Trace :=
  {| sent := sent t ++ [request]; waits := S (waits t);
     sleeps := S (sleeps t) |}.

(** The request [GetProductsFromQuery] sends for a query, and the one
    [GetAllProductTypes] sends. *)
Definition search_request (w : World) (its : ITScopeCommunicator)
    (query : string) : http.Request :=
  (authenticateRequest its
     (http.NewRequest http.MethodGet (search_url w query))).2.

Definition producttypes_request (its : ITScopeCommunicator) : http.Request :=
  (authenticateRequest its
     (http.NewRequest http.MethodGet producttypes_url)).2.

Definition has_credentials (its : ITScopeCommunicator) : Prop :=
  username its ≠ "" ∧ password its ≠ "".

(** The query executor applied to the queries of a list one after the
    other, up to the first error: the containers of the queries that were
    answered before it, the error if there is one, and the trace at the
    end. *)
Inductive queried (w : World) (its : ITScopeCommunicator)
  : list string → Trace → list ProductsContainer → option error → Trace
    → Prop :=
  | queried_nil t : queried w its [] t [] None t
  | queried_ok query queries t c t1 cs oe t2 :
      GetProductsFromQuery w its query t = (Some (Some c, None), t1) →
      queried w its queries t1 cs oe t2 →
      queried w its (query :: queries) t (c :: cs) oe t2
  | queried_err query queries t r e t1 :
      GetProductsFromQuery w its query t = (Some (r, Some e), t1) →
      queried w its (query :: queries) t [] (Some e) t1.

(** The assignments [filteredProducts[product.Puid] = product] of the two
    nested loops, in the order in which they are made. *)
Definition assignments (products : list Product)
    (typeList : list ProductType) : list Product :=
  productType ← typeList;
  filter (λ product, type_matches product productType = true) products.

(** [p] is the last of the assignments to its identifier. *)
Definition last_assigned (l : list Product) (p : Product) : Prop :=
  ∃ l1 l2, l = l1 ++ p :: l2 ∧ Forall (λ q, Puid q ≠ Puid p) l2.

(** What [GetProductsFromQuery] does once the loop is left. *)
Definition GetProductsFromQuery_end (w : World) (exit : loop_exit)
  : IO (option ProductsContainer * option error) :=
  match exit with
  | LoopReturn e => ret (None, Some e)
  | LoopEnd _ (Some e) =>
      ret (None, Some (WrapError "GetProductsFromQuery" e))
  | LoopEnd None None => panic
  | LoopEnd (Some response) None =>
      if bool_decide (http.StatusCode response = http.StatusNotFound)
      then ret (Some empty_container, None)
      else if bool_decide (http.StatusCode response ≠ http.StatusOK)
      then ret (None, Some (StatusCodeError
                              (NewUnexpectedStatusCodeError response)))
      else match json_ProductsContainer w (http.Body response) with
           | inl e => ret (None, Some e)
           | inr products => ret (Some products, None)
           end
  end.

(** ** Sample clients and surroundings *)

Definition upperhex (n : nat) : ascii :=
  nth n (String.list_ascii_of_string "0123456789ABCDEF") "0"%char.

(** [url.QueryEscape] of the Go library: letters, digits and the marks
    [-], [_], [.] and [~] stay, a space becomes [+], and any other byte
    becomes [%] and its two upper-case hexadecimal digits. *)
Fixpoint url_QueryEscape (s : string) : string :=
  match s with
  | EmptyString => EmptyString
  | String c s' =>
      if is_digit c || is_upper c || is_lower c || one_of "-_.~" c
      then String c (url_QueryEscape s')
      else if Ascii.eqb c " "
           then String "+" (url_QueryEscape s')
           else String "%"
                  (String (upperhex (nat_of_ascii c / 16))
                     (String (upperhex (nat_of_ascii c mod 16))
                        (url_QueryEscape s')))
  end.

Definition sample_product (puid typeID : string) : Product :=
  {| Puid := puid; ProductTypeID := typeID; Accessories := [];
     Image1 := ""; Image2 := ""; Image3 := ""; Image4 := ""; Image5 := "" |}.

Definition respond (code : Z) (status body : string) : RoundTrip :=
  DoResponse {| http.Status := status; http.StatusCode := code;
                http.Body := body |}.

Definition sample_type (id group : string) : ProductType :=
  {| ProductType_ID := id;
     ProductType_ProductTypeGroup := {| ProductTypeGroup_ID := group |} |}.

(** A world whose [k]-th request is answered by [answers k], whose limiter
    always grants a token, and whose decoders know three bodies: ["X"], a
    container with the one product X of type T1, ["types"], a catalog
    with the type T1 in group SSP, and the empty object, a catalog without
    a list of types. *)
Definition sample_world (answers : nat → RoundTrip) : World :=
  {| client_Do := λ k _, answers k;
     limiter_Wait := λ _, None;
     json_ProductsContainer := λ body,
       if bool_decide (body = "X")
       then inr {| ProductsContainer_Product := [sample_product "X" "T1"] |}
       else inl (ErrorString "unexpected end of JSON input");
     json_ProductTypesContainer := λ body,
       if bool_decide (body = "types")
       then inr {| ProductTypes := Some [sample_type "T1" "SSP"] |}
       else if bool_decide (body = "{}")
            then inr {| ProductTypes := None |}
            else inl (ErrorString "unexpected end of JSON input");
     QueryEscape := url_QueryEscape;
     range_order := map_to_list |}.

Definition sample_client : ITScopeCommunicator :=
  New "acme" "user" "secret" "de".

Definition anonymous_client : ITScopeCommunicator := New "acme" "" "" "de".

(** The map after a sequence of assignments. *)
Definition assign_all (l : list Product) (m : gmap string Product)
  : gmap string Product :=
  foldl (λ m p, <[Puid p := p]> m) m l.

(** The group of a product type. *)
Definition group_of (productType : ProductType) : string :=
  ProductTypeGroup_ID (ProductType_ProductTypeGroup productType).

(** Answers of a server that is down once and then serves the product X;
    of one that knows nothing; of one that is down for good; and of one
    that serves X once and is down afterwards. *)
Definition down_then_up (k : nat) : RoundTrip :=
  match k with
  | O => respond 503 "503 Service Unavailable" ""
  | _ => respond 200 "200 OK" "X"
  end.

Definition always_404 (k : nat) : RoundTrip := respond 404 "404 Not Found" "".

Definition always_500 (k : nat) : RoundTrip :=
  respond 500 "500 Internal Server Error" "".

Definition up_then_down (k : nat) : RoundTrip :=
  match k with
  | O => respond 200 "200 OK" "X"
  | _ => respond 500 "500 Internal Server Error" ""
  end.

(** Answers of a server that serves the catalog first and X afterwards. *)
Definition catalog_then_up (k : nat) : RoundTrip :=
  match k with
  | O => respond 200 "200 OK" "types"
  | _ => respond 200 "200 OK" "X"
  end.

(** Fifty-one identifiers: two groups, the tail chunk [["b"]] first. *)
Definition fifty_one : list string := replicate 50 "a" ++ ["b"].

(** A product with one accessory. *)
Definition sample_bundle : Product :=
  {| Puid := "P"; ProductTypeID := "T0";
     Accessories := [ {| ReferencedProductID := "X" |} ];
     Image1 := ""; Image2 := ""; Image3 := ""; Image4 := ""; Image5 := "" |}.

(** ** Further descriptions of runs *)

(** The trace after [k] attempts that were retried. *)
Definition after_retries (t : Trace) (request : http.Request) (k : nat)
  : Trace :=
  {| sent := sent t ++ replicate k request;
     waits := waits t + k;
     sleeps := sleeps t + k |}.

(** What [GetAllProductTypes] does once the loop is left. *)
Definition GetAllProductTypes_end (w : World) (exit : loop_exit)
  : IO (option (list ProductType) * option error) :=
  match exit with
  | LoopReturn e => ret (None, Some e)
  | LoopEnd _ (Some e) =>
      ret (None, Some (WrapError "could not retrieve product types" e))
  | LoopEnd None None => panic
  | LoopEnd (Some response) None =>
      if bool_decide (http.StatusCode response = http.StatusNotFound)
      then ret (Some [], None)
      else if bool_decide (http.StatusCode response ≠ http.StatusOK)
      then ret (None, Some (StatusCodeError
                              (NewUnexpectedStatusCodeError response)))
      else match json_ProductTypesContainer w (http.Body response) with
           | inl e =>
               ret (None,
                    Some (WrapError "could not retrieve product types" e))
           | inr productTypes => ret (ProductTypes productTypes, None)
           end
  end.

(** The error an exhausted retry loop leaves behind, by the outcome of the
    last attempt; [context] is the text the caller wraps a transport error
    in. *)
Definition exhausted_error (context : string) (last : RoundTrip) : error :=
  match last with
  | DoError e => WrapError context e
  | DoResponse r => StatusCodeError (NewUnexpectedStatusCodeError r)
  end.

(** The five image fields of a product, in order. *)
Definition image_fields (product : Product) : list string :=
  [Image1 product; Image2 product; Image3 product; Image4 product;
   Image5 product].


(** [e] is [inner] wrapped in one or more contexts, the outermost of which
    is [context]. *)
Definition wrapped_in (context : string) (e : error) : Prop :=
  ∃ inner, e = WrapError context inner.

(** A world with another limiter. *)
Definition with_limiter (w : World) (limiter : nat → option error) : World :=
  {| client_Do := client_Do w;
     limiter_Wait := limiter;
     json_ProductsContainer := json_ProductsContainer w;
     json_ProductTypesContainer := json_ProductTypesContainer w;
     QueryEscape := QueryEscape w;
     range_order := range_order w |}.

(** A limiter that grants the first [k] tokens and then runs into the
    deadline of the context. *)
Definition deadline_after (k : nat) (i : nat) : option error :=
  if bool_decide (i < k)%nat then None
  else Some (ErrorString "context deadline exceeded").

(** Answers of a server that cannot be reached, of one that answers 200
    with a body that does not decode, and of one that serves X at once. *)
Definition always_refused (k : nat) : RoundTrip :=
  DoError (ErrorString "connection refused").

Definition always_garbled (k : nat) : RoundTrip := respond 200 "200 OK" "{".

Definition always_up (k : nat) : RoundTrip := respond 200 "200 OK" "X".

(** Answers of a server that serves the catalog at once. *)
Definition always_catalog (k : nat) : RoundTrip :=
  respond 200 "200 OK" "types".

(** [sub] occurs in [s]. *)
Definition occurs_in (sub s : string) : Prop :=
  ∃ before after, s = before +:+ sub +:+ after.

(** Answers of a server that serves the empty object. *)
Definition always_empty_object (k : nat) : RoundTrip :=
  respond 200 "200 OK" "{}".
(** * Properties *)

(** ** Arithmetic of [int] *)

Lemma int_wrap_id z : min_int ≤ z ≤ max_int → int_wrap z = z.
Proof.
  unfold min_int, max_int, int_wrap. intros Hz.
  rewrite Z.mod_small by lia. lia.
Qed.

Lemma max_int_pos : 0 < max_int.
Proof. reflexivity. Qed.

Lemma ceil_div_split n L :
  0 < L → 0 ≤ n →
  ceil_div n L = n / L + (if bool_decide (n mod L > 0) then 1 else 0).
Proof.
  intros HL Hn. unfold ceil_div.
  pose proof (Z.div_mod n L ltac:(lia)) as Hdm.
  pose proof (Z.mod_pos_bound n L HL) as Hb.
  case_bool_decide as Hr.
  - symmetry. apply Z.div_unique with (r := n mod L - 1); [lia|].
    rewrite Z.mul_add_distr_l. lia.
  - assert (n mod L = 0) as H0 by lia.
    rewrite Z.add_0_r. symmetry.
    apply Z.div_unique with (r := L - 1); [lia|]. lia.
Qed.

Lemma ceil_div_bounds n L :
  0 < L → 0 ≤ n →
  (ceil_div n L - 1) * L < n ≤ ceil_div n L * L.
Proof.
  intros HL Hn. rewrite ceil_div_split by done.
  pose proof (Z.div_mod n L ltac:(lia)) as Hdm.
  pose proof (Z.mod_pos_bound n L HL) as Hb.
  case_bool_decide; nia.
Qed.

Lemma ceil_div_range n L : 0 < L → 0 ≤ n → 0 ≤ ceil_div n L ≤ n.
Proof.
  intros HL Hn. pose proof (ceil_div_bounds n L HL Hn). split; nia.
Qed.

Lemma page_count_ceil n L :
  0 < L ≤ max_int → 0 ≤ n ≤ max_int →
  page_count n L = Some (ceil_div n L).
Proof.
  intros HL Hn. unfold page_count, int_div, int_mod.
  rewrite !bool_decide_eq_false_2 by lia. simpl.
  rewrite Z.quot_div_nonneg, Z.rem_mod_nonneg by lia.
  pose proof (ceil_div_range n L ltac:(lia) ltac:(lia)) as Hr.
  rewrite ceil_div_split in * by lia.
  assert (0 ≤ n / L) by (apply Z.div_pos; lia).
  unfold min_int, max_int in *.
  rewrite (int_wrap_id (n / L)) by (unfold min_int, max_int; case_bool_decide; lia).
  f_equal. case_bool_decide.
  - unfold int_add. apply int_wrap_id. unfold min_int, max_int. lia.
  - lia.
Qed.

(** ** The batcher *)

Section Batcher.
Implicit Types (ids : list string) (L i : nat).

Lemma chunks_down_length ids L i : length (chunks_down ids L i) = i.
Proof. induction i as [|i IH]; simpl; congruence. Qed.

Lemma chunks_down_concat ids L i :
  concat (reverse (chunks_down ids L i)) = take (i * L) ids.
Proof.
  induction i as [|i IH]; simpl; [done|].
  rewrite reverse_cons, concat_app, IH. simpl. rewrite app_nil_r.
  rewrite take_take_drop. f_equal. lia.
Qed.

Lemma chunks_down_bounded ids L i :
  Forall (λ g, (length g ≤ L)%nat) (chunks_down ids L i).
Proof.
  induction i as [|i IH]; simpl; constructor; [|done].
  rewrite length_take. lia.
Qed.

Lemma chunks_down_lookup ids L i k g :
  chunks_down ids L i !! k = Some g →
  (k < i)%nat ∧ g = take L (drop ((i - 1 - k) * L) ids).
Proof.
  revert k. induction i as [|i IH]; intros k; simpl; [done|].
  destruct k as [|k]; simpl.
  - intros [= <-]. split; [lia|]. do 2 f_equal. lia.
  - intros Hk. destruct (IH _ Hk) as [Hlt ->]. split; [lia|].
    do 3 f_equal. lia.
Qed.

(** The loop, from page [i] down, appends the chunks [i], [i-1], ..., 1. *)
Lemma queryGroups_loop_chunks ids (length : Z) (i : nat)
    (acc : list (list string)) :
  0 < length ≤ max_int → len ids ≤ max_int →
  (Z.of_nat i ≤ ceil_div (len ids) length) →
  queryGroups_loop ids length (ceil_div (len ids) length) i acc
  = Some (acc ++ chunks_down ids (Z.to_nat length) i).
Proof.
  intros HL Hn. revert acc.
  pose proof (ceil_div_bounds (len ids) length ltac:(lia) ltac:(unfold len; lia)) as Hb.
  induction i as [|i IH]; intros acc Hi.
  - simpl. by rewrite app_nil_r.
  - cbn [queryGroups_loop chunks_down].
    assert (0 ≤ Z.of_nat i * length ≤ len ids) as Hstart by nia.
    assert (int_mul (int_sub (Z.of_nat (S i)) 1) length = Z.of_nat i * length)
      as ->.
    { unfold int_mul, int_sub.
      rewrite (int_wrap_id (Z.of_nat (S i) - 1))
        by (unfold min_int, max_int in *; nia).
      replace (Z.of_nat (S i) - 1) with (Z.of_nat i) by lia.
      apply int_wrap_id. unfold min_int, max_int in *. lia. }
    assert (Z.to_nat (Z.of_nat i * length) = (i * Z.to_nat length)%nat)
      as Hnat by nia.
    case_bool_decide as Hlast.
    + unfold slice_from. rewrite bool_decide_eq_true_2 by lia. simpl.
      rewrite IH by lia. rewrite <- app_assoc. simpl.
      rewrite Hnat. do 3 f_equal.
      rewrite take_ge; [done|]. rewrite length_drop. unfold len in *. nia.
    + assert (Z.of_nat (S i) * length ≤ len ids) as Hend by nia.
      assert (int_mul (Z.of_nat (S i)) length = Z.of_nat (S i) * length) as ->.
      { apply int_wrap_id. unfold min_int, max_int in *. nia. }
      unfold slice_range. rewrite bool_decide_eq_true_2 by nia. simpl.
      rewrite IH by lia. rewrite <- app_assoc. simpl.
      rewrite Hnat. do 4 f_equal. nia.
Qed.

Lemma createQueryStrings_loop_groups ids (length pages : Z) (i : nat)
    (acc : list (list string)) :
  createQueryStrings_loop ids length pages i (query_of_slice <$> acc)
  = fmap (M:=list) query_of_slice <$> queryGroups_loop ids length pages i acc.
Proof.
  revert acc. induction i as [|i IH]; intros acc; [done|].
  cbn [createQueryStrings_loop queryGroups_loop].
  destruct (if bool_decide (Z.of_nat (S i) = pages) then _ else _)
    as [slice|]; simpl; [|done].
  rewrite <- IH. by rewrite fmap_app.
Qed.

Lemma createQueryStrings_groups ids (length : Z) :
  createQueryStrings ids length
  = fmap (M:=list) query_of_slice <$> queryGroups ids length.
Proof.
  unfold createQueryStrings, queryGroups.
  destruct (page_count _ _) as [pages|]; simpl; [|done].
  apply (createQueryStrings_loop_groups ids length pages _ []).
Qed.

Lemma queryGroups_chunks ids (length : Z) :
  0 < length ≤ max_int → len ids ≤ max_int →
  queryGroups ids length
  = Some (chunks_down ids (Z.to_nat length)
            (Z.to_nat (ceil_div (len ids) length))).
Proof.
  intros HL Hn. unfold queryGroups.
  assert (0 ≤ len ids) by (unfold len; lia).
  rewrite page_count_ceil by lia. simpl.
  pose proof (ceil_div_range (len ids) length ltac:(lia) ltac:(lia)).
  rewrite queryGroups_loop_chunks by lia. done.
Qed.

End Batcher.

Lemma concat_reverse_Permutation {A} (ls : list (list A)) :
  concat (reverse ls) ≡ₚ concat ls.
Proof.
  induction ls as [|l ls IH]; [done|].
  rewrite reverse_cons, concat_app. simpl. rewrite app_nil_r, IH.
  apply Permutation_app_comm.
Qed.

Lemma string_app_assoc (s1 s2 s3 : string) :
  (s1 +:+ s2) +:+ s3 = s1 +:+ s2 +:+ s3.
Proof.
  induction s1 as [|c s1 IH]; [done|].
  change (String c ((s1 +:+ s2) +:+ s3) = String c (s1 +:+ s2 +:+ s3)).
  by rewrite IH.
Qed.

Lemma string_app_empty_r (s : string) : s +:+ "" = s.
Proof.
  induction s as [|c s IH]; [done|].
  change (String c (s +:+ "") = String c s). by rewrite IH.
Qed.

(** Every identifier of a slice stands in the query of the slice, after
    its [id=]. *)
Lemma query_holds_identifiers (slice : list string) (id : string) :
  id ∈ slice →
  occurs_in ("id=" +:+ id) ("id=" +:+ String.concat ";id=" slice).
Proof.
  induction slice as [|x slice IH]; [by intros ?%elem_of_nil|].
  intros [->|Hin]%elem_of_cons.
  - destruct slice as [|y slice].
    + exists "", "". change ("" +:+ ?s) with s.
      by rewrite string_app_empty_r.
    + exists "", (";id=" +:+ String.concat ";id=" (y :: slice)).
      change (String.concat ";id=" (x :: y :: slice))
        with (x +:+ ";id=" +:+ String.concat ";id=" (y :: slice)).
      change ("" +:+ ?s) with s. by rewrite string_app_assoc.
  - destruct slice as [|y slice]; [by apply elem_of_nil in Hin|].
    destruct (IH Hin) as (before & after & Heq).
    exists ("id=" +:+ x +:+ ";" +:+ before), after.
    change ("id=" +:+ String.concat ";id=" (x :: y :: slice))
      with ("id=" +:+ x +:+ ";"
            +:+ ("id=" +:+ String.concat ";id=" (y :: slice))).
    rewrite Heq. by rewrite !string_app_assoc.
Qed.

Lemma query_of_slice_text (slice : list string) :
  query_of_slice slice = "id=" +:+ String.concat ";id=" slice.
Proof. reflexivity. Qed.

(** C1.  For every identifier list of length [n] and every positive batch
    length [L] (an [int], as is [n]), [createQueryStrings] returns, without
    a panic, one query per group: the query of a group is [id=] followed by
    the identifiers of the group, joined by [;id=], so that each of them
    occurs in it after an [id=].  The groups its loop slices off are
    [ceil(n/L)] in number, partition the occurrences of the identifiers (put
    back in input order they are the input itself, so each occurrence lies
    in exactly one group) and hold at most [L] identifiers each; the empty
    input gives the empty sequence. *)
Theorem createQueryStrings_partition (productIDs : list string) (length : Z) :
  0 < length ≤ max_int → len productIDs ≤ max_int →
  ∃ (groups : list (list string)) (queries : list string),
    queryGroups productIDs length = Some groups
    ∧ createQueryStrings productIDs length = Some queries
    ∧ queries = (λ group, "id=" +:+ String.concat ";id=" group) <$> groups
    ∧ Forall2 (λ group query,
                 ∀ id, id ∈ group → occurs_in ("id=" +:+ id) query)
        groups queries
    ∧ len queries = ceil_div (len productIDs) length
    ∧ len groups = ceil_div (len productIDs) length
    ∧ (len groups - 1) * length < len productIDs ≤ len groups * length
    ∧ concat (reverse groups) = productIDs
    ∧ concat groups ≡ₚ productIDs
    ∧ Forall (λ g, len g ≤ length) groups
    ∧ (productIDs = [] → groups = [] ∧ queries = []).
Proof.
  intros HL Hn.
  assert (0 ≤ len productIDs) as Hn0 by (unfold len; lia).
  pose proof (ceil_div_range _ _ (proj1 HL) Hn0) as Hr.
  pose proof (ceil_div_bounds _ _ (proj1 HL) Hn0) as Hb.
  set (p := Z.to_nat (ceil_div (len productIDs) length)) in *.
  set (Ln := Z.to_nat length).
  assert (len (chunks_down productIDs Ln p)
          = ceil_div (len productIDs) length) as Hlen.
  { unfold len at 1. rewrite chunks_down_length. unfold p. lia. }
  assert (concat (reverse (chunks_down productIDs Ln p)) = productIDs)
    as Hcat.
  { rewrite chunks_down_concat. apply take_ge.
    assert (Z.of_nat (p * Ln) = ceil_div (len productIDs) length * length)
      as Hmul by (unfold p, Ln; rewrite Nat2Z.inj_mul, !Z2Nat.id; lia).
    unfold len in *. lia. }
  exists (chunks_down productIDs Ln p),
         (query_of_slice <$> chunks_down productIDs Ln p).
  split; [by apply queryGroups_chunks|].
  split; [by rewrite createQueryStrings_groups, queryGroups_chunks|].
  split; [done|].
  split.
  { apply Forall2_fmap_r, Forall_Forall2_diag, Forall_forall.
    intros group _ id Hid. rewrite query_of_slice_text.
    by apply query_holds_identifiers. }
  split; [unfold len in *; by rewrite length_fmap|].
  split; [done|].
  split; [by rewrite Hlen|].
  split; [done|].
  split; [by rewrite <- concat_reverse_Permutation, Hcat|].
  split.
  - eapply Forall_impl; [apply chunks_down_bounded|].
    intros g Hg. simpl in Hg. unfold len, Ln in *. lia.
  - intros ->. change (len []) with 0 in *.
    assert (p = 0%nat) as -> by (unfold p; lia). done.
Qed.

Lemma createQueryStrings_partition_witness :
  (0 < 2 ≤ max_int) ∧ (len ["a"; "b"; "c"] ≤ max_int)
  ∧ (∃ (groups : list (list string)) (queries : list string),
       queryGroups ["a"; "b"; "c"] 2 = Some groups
       ∧ createQueryStrings ["a"; "b"; "c"] 2 = Some queries
       ∧ queries = (λ group, "id=" +:+ String.concat ";id=" group) <$> groups
       ∧ Forall2 (λ group query,
                    ∀ id, id ∈ group → occurs_in ("id=" +:+ id) query)
           groups queries
       ∧ len queries = ceil_div (len ["a"; "b"; "c"]) 2
       ∧ len groups = ceil_div (len ["a"; "b"; "c"]) 2
       ∧ (len groups - 1) * 2 < len ["a"; "b"; "c"] ≤ len groups * 2
       ∧ concat (reverse groups) = ["a"; "b"; "c"]
       ∧ concat groups ≡ₚ ["a"; "b"; "c"]
       ∧ Forall (λ g, len g ≤ 2) groups
       ∧ (["a"; "b"; "c"] = [] → groups = [] ∧ queries = []))
  ∧ queryGroups ["a"; "b"; "c"] 2 = Some [["c"]; ["a"; "b"]]
  ∧ createQueryStrings ["a"; "b"; "c"] 2 = Some ["id=c"; "id=a;id=b"].
Proof.
  split; [unfold max_int; lia|].
  split; [unfold max_int, len; simpl; lia|].
  split.
  - apply (createQueryStrings_partition ["a"; "b"; "c"] 2).
    + unfold max_int; lia.
    + unfold max_int, len; simpl; lia.
  - split; vm_compute; reflexivity.
Defined.

(** The scenario of the specification: three identifiers in batches of
    two. *)
Example createQueryStrings_abc :
  createQueryStrings ["a"; "b"; "c"] 2 = Some ["id=c"; "id=a;id=b"].
Proof. vm_compute. reflexivity. Qed.

Example createQueryStrings_empty : createQueryStrings [] 50 = Some [].
Proof. vm_compute. reflexivity. Qed.

(** A batch length of zero panics in the division. *)
Example createQueryStrings_zero : createQueryStrings ["a"] 0 = None.
Proof. vm_compute. reflexivity. Qed.

(** C6.  For every non-empty identifier list whose length [n] is not a
    multiple of the batch length [L], the first group emitted is the tail
    chunk of the input, its last [n mod L] identifiers, and the first query
    returned is the query of that chunk: [id=] followed by its identifiers,
    joined by [;id=].  The group emitted at position [k] starts at index
    [(pages - 1 - k) * L] of the input: start indices go down, the head
    chunk comes last. *)
Theorem createQueryStrings_tail_chunk_first (productIDs : list string)
    (length : Z) :
  0 < length ≤ max_int → len productIDs ≤ max_int →
  productIDs ≠ [] → len productIDs mod length ≠ 0 →
  ∃ (first : list string) (rest : list (list string)),
    queryGroups productIDs length = Some (first :: rest)
    ∧ createQueryStrings productIDs length
      = Some (("id=" +:+ String.concat ";id=" first)
              :: ((λ group, "id=" +:+ String.concat ";id=" group) <$> rest))
    ∧ (∀ id, id ∈ first →
             occurs_in ("id=" +:+ id) ("id=" +:+ String.concat ";id=" first))
    ∧ first = drop (Z.to_nat (len productIDs - len productIDs mod length))
                productIDs
    ∧ len first = len productIDs mod length
    ∧ (∀ (k : nat) (g : list string),
         (first :: rest) !! k = Some g →
         g = take (Z.to_nat length)
               (drop (Z.to_nat ((len (first :: rest) - 1 - Z.of_nat k) * length))
                  productIDs))
    ∧ last (first :: rest) = Some (take (Z.to_nat length) productIDs).
Proof.
  intros HL Hn _ Hmod.
  assert (0 ≤ len productIDs) as Hn0 by (unfold len; lia).
  pose proof (Z.mod_pos_bound (len productIDs) length (proj1 HL)) as Hm.
  pose proof (Z.div_mod (len productIDs) length ltac:(lia)) as Hdm.
  assert (0 ≤ len productIDs / length) as Hq by (apply Z.div_pos; lia).
  assert (ceil_div (len productIDs) length = len productIDs / length + 1)
    as Hceil.
  { rewrite ceil_div_split by lia. rewrite bool_decide_eq_true_2 by lia.
    done. }
  set (Ln := Z.to_nat length).
  set (q := Z.to_nat (len productIDs / length)).
  assert (Z.to_nat (ceil_div (len productIDs) length) = S q) as Hp
    by (unfold q; lia).
  assert (Z.of_nat (q * Ln) = len productIDs - len productIDs mod length)
    as Hstart by (unfold q, Ln; nia).
  assert (take Ln (drop (q * Ln) productIDs) = drop (q * Ln) productIDs)
    as Htail.
  { apply take_ge. rewrite length_drop. unfold len, Ln in *. lia. }
  exists (drop (q * Ln) productIDs), (chunks_down productIDs Ln q).
  assert (queryGroups productIDs length
          = Some (drop (q * Ln) productIDs :: chunks_down productIDs Ln q))
    as Hgroups.
  { rewrite queryGroups_chunks by done. rewrite Hp. simpl.
    fold Ln. by rewrite Htail. }
  split; [done|].
  split; [by rewrite createQueryStrings_groups, Hgroups|].
  split; [intros id Hid; by apply query_holds_identifiers|].
  split; [f_equal; lia|].
  split; [unfold len in *; rewrite length_drop; lia|].
  split.
  - intros k g Hk.
    rewrite <- Htail in Hk.
    change (chunks_down productIDs Ln (S q) !! k = Some g) in Hk.
    apply chunks_down_lookup in Hk as [Hlt ->]. fold Ln.
    do 2 f_equal. unfold len. simpl. rewrite chunks_down_length.
    unfold Ln. nia.
  - rewrite last_lookup. simpl. rewrite chunks_down_length.
    rewrite <- Htail.
    change (chunks_down productIDs Ln (S q) !! q
            = Some (take Ln productIDs)).
    destruct (lookup_lt_is_Some_2 (chunks_down productIDs Ln (S q)) q)
      as [g Hg]; [rewrite chunks_down_length; lia|].
    rewrite Hg. apply chunks_down_lookup in Hg as [_ ->].
    do 2 f_equal. replace (S q - 1 - q)%nat with 0%nat by lia. done.
Qed.

Lemma createQueryStrings_tail_chunk_first_witness :
  (0 < 2 ≤ max_int) ∧ (len ["a"; "b"; "c"] ≤ max_int)
  ∧ ["a"; "b"; "c"] ≠ [] ∧ len ["a"; "b"; "c"] mod 2 ≠ 0
  ∧ (∃ (first : list string) (rest : list (list string)),
       queryGroups ["a"; "b"; "c"] 2 = Some (first :: rest)
       ∧ createQueryStrings ["a"; "b"; "c"] 2
         = Some (("id=" +:+ String.concat ";id=" first)
                 :: ((λ group, "id=" +:+ String.concat ";id=" group)
                     <$> rest))
       ∧ (∀ id, id ∈ first →
                occurs_in ("id=" +:+ id)
                  ("id=" +:+ String.concat ";id=" first))
       ∧ first = drop (Z.to_nat (len ["a"; "b"; "c"]
                                 - len ["a"; "b"; "c"] mod 2))
                   ["a"; "b"; "c"]
       ∧ len first = len ["a"; "b"; "c"] mod 2
       ∧ (∀ (k : nat) (g : list string),
            (first :: rest) !! k = Some g →
            g = take (Z.to_nat 2)
                  (drop (Z.to_nat ((len (first :: rest) - 1 - Z.of_nat k) * 2))
                     ["a"; "b"; "c"]))
       ∧ last (first :: rest) = Some (take (Z.to_nat 2) ["a"; "b"; "c"]))
  ∧ head <$> createQueryStrings ["a"; "b"; "c"] 2 = Some (Some "id=c")
  ∧ head <$> createQueryStrings ["a"; "b"; "c"; "d"; "e"] 3
    = Some (Some "id=d;id=e").
Proof.
  split; [unfold max_int; lia|].
  split; [unfold max_int, len; simpl; lia|].
  split; [discriminate|].
  split; [vm_compute; discriminate|].
  split.
  - apply (createQueryStrings_tail_chunk_first ["a"; "b"; "c"] 2).
    + unfold max_int; lia.
    + unfold max_int, len; simpl; lia.
    + discriminate.
    + vm_compute; discriminate.
  - split; vm_compute; reflexivity.
Defined.

(** ** The retry loop *)

Section RetryLoop.
Context (w : World) (request : http.Request).
Implicit Types (t : Trace) (retries : nat).

Lemma GetAllProductTypes_loop_same retries response err t :
  GetAllProductTypes_loop w request retries response err t
  = GetProductsFromQuery_loop w request retries response err t.
Proof. reflexivity. Qed.

Lemma loop_limiter retries response err t e :
  permit w t 0 = Some e →
  GetProductsFromQuery_loop w request (S retries) response err t
  = (Some (LoopReturn (WrapError "limiter timeout" e)), waited t).
Proof.
  unfold permit. rewrite Nat.add_0_r. intros Hw.
  cbn [GetProductsFromQuery_loop]. unfold bind, Wait. by rewrite Hw.
Qed.

Lemma loop_break retries response err t r :
  permit w t 0 = None →
  attempt w t request 0 = DoResponse r → retry_status r = false →
  GetProductsFromQuery_loop w request (S retries) response err t
  = (Some (LoopEnd (Some r) None), answered t request).
Proof.
  unfold permit, attempt. rewrite !Nat.add_0_r. intros Hw Hd Hr.
  cbn [GetProductsFromQuery_loop]. unfold bind, Wait, Do. rewrite Hw.
  cbn. rewrite Hd, Hr. done.
Qed.

Lemma loop_retry retries response err t :
  permit w t 0 = None → transient (attempt w t request 0) = true →
  GetProductsFromQuery_loop w request (S retries) response err t
  = match attempt w t request 0 with
    | DoError e =>
        GetProductsFromQuery_loop w request retries None (Some e)
          (retried t request)
    | DoResponse r =>
        GetProductsFromQuery_loop w request retries (Some r) None
          (retried t request)
    end.
Proof.
  unfold permit, attempt. rewrite !Nat.add_0_r. intros Hw Ht.
  cbn [GetProductsFromQuery_loop]. unfold bind at 1, Wait. rewrite Hw.
  unfold bind at 1, Do. cbn.
  destruct (client_Do w (length (sent t)) request) as [e|r]; cbn in *.
  - done.
  - rewrite Ht. done.
Qed.

Lemma permit_retried t k : permit w (retried t request) k = permit w t (S k).
Proof. unfold permit. simpl. f_equal. lia. Qed.

Lemma attempt_retried t k :
  attempt w (retried t request) request k = attempt w t request (S k).
Proof.
  unfold attempt. simpl. rewrite length_app. simpl. f_equal. lia.
Qed.

Lemma requests_retried t : requests (retried t request) = S (requests t).
Proof. unfold requests. simpl. rewrite length_app. simpl. lia. Qed.

Lemma requests_answered t : requests (answered t request) = S (requests t).
Proof. unfold requests. simpl. rewrite length_app. simpl. lia. Qed.

Lemma requests_waited t : requests (waited t) = requests t.
Proof. done. Qed.

(** The loop never panics; it sends at most [retries] requests; and it ends
    with both variables nil only if it did not run at all. *)
Lemma loop_total retries response err t :
  ∃ exit t',
    GetProductsFromQuery_loop w request retries response err t
    = (Some exit, t')
    ∧ (requests t ≤ requests t' ≤ requests t + retries)%nat
    ∧ (exit = LoopEnd None None →
       response = None ∧ err = None ∧ retries = 0%nat).
Proof.
  revert response err t. induction retries as [|n IH]; intros response err t.
  - exists (LoopEnd response err), t. split; [done|]. split; [lia|].
    by intros [= -> ->].
  - destruct (permit w t 0) as [e|] eqn:Hw.
    { eexists _, _. split; [by apply loop_limiter|].
      rewrite requests_waited. split; [lia|done]. }
    destruct (transient (attempt w t request 0)) eqn:Ht.
    + rewrite loop_retry by done.
      destruct (attempt w t request 0) as [e|r].
      * destruct (IH None (Some e) (retried t request))
          as (exit & t' & -> & Hreq & Hex).
        exists exit, t'. split; [done|]. rewrite requests_retried in Hreq.
        split; [lia|]. intros ->. by destruct Hex as (_ & ? & _).
      * destruct (IH (Some r) None (retried t request))
          as (exit & t' & -> & Hreq & Hex).
        exists exit, t'. split; [done|]. rewrite requests_retried in Hreq.
        split; [lia|]. intros ->. by destruct Hex as (? & _ & _).
    + destruct (attempt w t request 0) as [e|r] eqn:Ha; [done|].
      simpl in Ht. eexists _, _. split; [by eapply loop_break|].
      rewrite requests_answered. split; [lia|done].
Qed.

(** The first request goes out exactly when the first wait succeeds. *)
Lemma loop_first_request retries response err t :
  (requests t
   < requests
       (GetProductsFromQuery_loop w request (S retries) response err t).2)%nat
  ↔ permit w t 0 = None.
Proof.
  destruct (permit w t 0) as [e|] eqn:Hw.
  - rewrite (loop_limiter _ _ _ _ e) by done. simpl.
    rewrite requests_waited. split; [lia|done].
  - split; [done|]. intros _.
    destruct (transient (attempt w t request 0)) eqn:Ht.
    + rewrite loop_retry by done.
      destruct (attempt w t request 0) as [e|r].
      * destruct (loop_total retries None (Some e) (retried t request))
          as (exit & t' & -> & Hreq & _).
        simpl. rewrite requests_retried in Hreq. lia.
      * destruct (loop_total retries (Some r) None (retried t request))
          as (exit & t' & -> & Hreq & _).
        simpl. rewrite requests_retried in Hreq. lia.
    + destruct (attempt w t request 0) as [e|r] eqn:Ha; [done|].
      simpl in Ht. erewrite loop_break by done. simpl.
      rewrite requests_answered. lia.
Qed.

End RetryLoop.

(** ** The query executor *)

Section Executor.
Context (w : World) (its : ITScopeCommunicator).
Implicit Types (t : Trace) (query : string).

Lemma authenticateRequest_missing request :
  username its = "" ∨ password its = "" →
  authenticateRequest its request
  = (Some (ErrorString "no username or password set"), request).
Proof.
  intros H. unfold authenticateRequest. by rewrite bool_decide_eq_true_2.
Qed.

Lemma authenticateRequest_credentials request :
  has_credentials its →
  authenticateRequest its request
  = (None, (authenticateRequest its request).2).
Proof.
  intros [Hu Hp]. unfold authenticateRequest.
  rewrite bool_decide_eq_false_2 by (intros [?|?]; done). done.
Qed.

Lemma GetProductsFromQuery_credentials query :
  has_credentials its →
  GetProductsFromQuery w its query
  = bind (GetProductsFromQuery_loop w (search_request w its query) 3
            None None)
         (GetProductsFromQuery_end w).
Proof.
  intros Hc. unfold GetProductsFromQuery, search_request.
  rewrite authenticateRequest_credentials by done. done.
Qed.

Lemma GetProductsFromQuery_missing query t :
  username its = "" ∨ password its = "" →
  GetProductsFromQuery w its query t
  = (Some (None, Some (WrapError "GetProductsFromQuery2"
                         (ErrorString "no username or password set"))), t).
Proof.
  intros H. unfold GetProductsFromQuery.
  by rewrite authenticateRequest_missing.
Qed.

Lemma GetAllProductTypes_missing t :
  username its = "" ∨ password its = "" →
  GetAllProductTypes w its t
  = (Some (None, Some (WrapError "could not retrieve product types"
                         (ErrorString "no username or password set"))), t).
Proof.
  intros H. unfold GetAllProductTypes.
  by rewrite authenticateRequest_missing.
Qed.

Lemma has_credentials_dec :
  has_credentials its ∨ (username its = "" ∨ password its = "").
Proof.
  unfold has_credentials.
  destruct (decide (username its = "")), (decide (password its = ""));
    tauto.
Qed.

(** The executor never panics, and returns either a container or an
    error, never both and never neither. *)
Lemma GetProductsFromQuery_total query t :
  ∃ t', (∃ c, GetProductsFromQuery w its query t = (Some (Some c, None), t'))
        ∨ (∃ e, GetProductsFromQuery w its query t
                = (Some (None, Some e), t')).
Proof.
  destruct has_credentials_dec as [Hc|Hm].
  - rewrite GetProductsFromQuery_credentials by done. unfold bind.
    destruct (loop_total w (search_request w its query) 3 None None t)
      as (exit & t' & -> & _ & Hex).
    exists t'. destruct exit as [e|[r|] [e|]]; simpl; eauto.
    + case_bool_decide; [eauto|]. case_bool_decide; [eauto|].
      destruct (json_ProductsContainer w (http.Body r)); eauto.
    + by destruct Hex as (_ & _ & ?).
  - exists t. right. eexists. by apply GetProductsFromQuery_missing.
Qed.

Lemma GetProductsFromQuery_requests query t :
  (requests t ≤ requests (GetProductsFromQuery w its query t).2
   ≤ requests t + 3)%nat.
Proof.
  destruct has_credentials_dec as [Hc|Hm].
  - rewrite GetProductsFromQuery_credentials by done. unfold bind.
    destruct (loop_total w (search_request w its query) 3 None None t)
      as (exit & t' & -> & Hreq & Hex).
    assert ((GetProductsFromQuery_end w exit t').2 = t') as ->; [|done].
    destruct exit as [e|[r|] [e|]]; simpl; try done.
    case_bool_decide; [done|]. case_bool_decide; [done|].
    by destruct (json_ProductsContainer w (http.Body r)).
  - rewrite GetProductsFromQuery_missing by done. simpl. lia.
Qed.

Lemma GetProductsFromQuery_end_trace exit t :
  (GetProductsFromQuery_end w exit t).2 = t.
Proof.
  destruct exit as [e|[r|] [e|]]; simpl; try done.
  case_bool_decide; [done|]. case_bool_decide; [done|].
  by destruct (json_ProductsContainer w (http.Body r)).
Qed.

End Executor.

Section Attempts.
Context (w : World) (request : http.Request).
Implicit Types (t : Trace) (k n : nat).

(** What the variables [response] and [err] hold after an attempt. *)
Lemma loop_after_transients k n response err t :
  (∀ j, (j < k)%nat →
     permit w t j = None ∧ transient (attempt w t request j) = true) →
  ∃ response' err' t',
    GetProductsFromQuery_loop w request (k + n) response err t
    = GetProductsFromQuery_loop w request n response' err' t'
    ∧ requests t' = (requests t + k)%nat
    ∧ sleeps t' = (sleeps t + k)%nat
    ∧ (∀ j, permit w t' j = permit w t (k + j))
    ∧ (∀ j, attempt w t' request j = attempt w t request (k + j))
    ∧ match k with
      | O => response' = response ∧ err' = err
      | S k' =>
          match attempt w t request k' with
          | DoError e => response' = None ∧ err' = Some e
          | DoResponse r => response' = Some r ∧ err' = None
          end
      end.
Proof.
  revert response err t. induction k as [|k IH]; intros response err t Hk.
  - exists response, err, t. repeat split; auto with lia.
  - destruct (Hk 0%nat ltac:(lia)) as [Hw Ht].
    cbn [Nat.add]. rewrite loop_retry by done.
    assert (∀ j, (j < k)%nat →
              permit w (retried t request) j = None
              ∧ transient (attempt w (retried t request) request j) = true)
      as Hk'.
    { intros j Hj. rewrite permit_retried, attempt_retried.
      apply Hk. lia. }
    destruct (attempt w t request 0) as [e|r] eqn:Ha.
    + destruct (IH None (Some e) _ Hk')
        as (response' & err' & t' & -> & Hreq & Hsl & Hp & Hat & Hlast).
      exists response', err', t'. split; [done|].
      rewrite requests_retried in Hreq. simpl in Hsl.
      split; [lia|]. split; [lia|].
      split; [intros j; by rewrite Hp, permit_retried|].
      split; [intros j; by rewrite Hat, attempt_retried|].
      destruct k as [|k'].
      * rewrite Ha. done.
      * by rewrite attempt_retried in Hlast.
    + destruct (IH (Some r) None _ Hk')
        as (response' & err' & t' & -> & Hreq & Hsl & Hp & Hat & Hlast).
      exists response', err', t'. split; [done|].
      rewrite requests_retried in Hreq. simpl in Hsl.
      split; [lia|]. split; [lia|].
      split; [intros j; by rewrite Hp, permit_retried|].
      split; [intros j; by rewrite Hat, attempt_retried|].
      destruct k as [|k'].
      * rewrite Ha. done.
      * by rewrite attempt_retried in Hlast.
Qed.

(** [k] attempts to be retried, then an answer with status 200 or 404:
    the loop is left with that answer, after [k + 1] requests and [k]
    sleeps. *)
Lemma loop_answer_after k n response err t r :
  (∀ j, (j < k)%nat →
     permit w t j = None ∧ transient (attempt w t request j) = true) →
  permit w t k = None →
  attempt w t request k = DoResponse r → retry_status r = false →
  ∃ t',
    GetProductsFromQuery_loop w request (k + S n) response err t
    = (Some (LoopEnd (Some r) None), t')
    ∧ requests t' = (requests t + S k)%nat
    ∧ sleeps t' = (sleeps t + k)%nat.
Proof.
  intros Hk Hw Ha Hr.
  destruct (loop_after_transients k (S n) response err t Hk)
    as (response' & err' & t' & -> & Hreq & Hsl & Hp & Hat & _).
  exists (answered t' request).
  split.
  - apply loop_break; [|by rewrite Hat, Nat.add_0_r|done].
    by rewrite Hp, Nat.add_0_r.
  - rewrite requests_answered. simpl. lia.
Qed.

End Attempts.

Lemma retry_status_true r :
  retry_status r = true
  ↔ http.StatusCode r ≠ http.StatusOK
    ∧ http.StatusCode r ≠ http.StatusNotFound.
Proof.
  unfold retry_status. rewrite andb_true_iff, !bool_decide_eq_true. done.
Qed.

Lemma retry_status_200 r :
  http.StatusCode r = http.StatusOK → retry_status r = false.
Proof.
  intros H. unfold retry_status. by rewrite bool_decide_eq_false_2 by tauto.
Qed.

Lemma retry_status_404 r :
  http.StatusCode r = http.StatusNotFound → retry_status r = false.
Proof.
  intros H. unfold retry_status.
  rewrite (bool_decide_eq_false_2 (_ ≠ http.StatusNotFound)) by tauto.
  apply andb_false_r.
Qed.

(** C3.  When the first two attempts are to be retried and the third is
    answered with a status other than 200 and 404 (in particular when all
    three attempts are answered with such a status), the call returns the
    [UnexpectedStatusCodeError] made of the third answer, which carries its
    status code and status text, after three requests. *)
Theorem GetProductsFromQuery_unexpected_status (w : World)
    (its : ITScopeCommunicator) (query : string) (t : Trace)
    (r : http.Response) :
  has_credentials its →
  (∀ j, (j < 3)%nat → permit w t j = None) →
  (∀ j, (j < 2)%nat →
     transient (attempt w t (search_request w its query) j) = true) →
  attempt w t (search_request w its query) 2 = DoResponse r →
  http.StatusCode r ≠ http.StatusOK →
  http.StatusCode r ≠ http.StatusNotFound →
  ∃ t',
    GetProductsFromQuery w its query t
    = (Some (None, Some (StatusCodeError (NewUnexpectedStatusCodeError r))),
       t')
    ∧ StatusCode (NewUnexpectedStatusCodeError r) = http.StatusCode r
    ∧ Message (NewUnexpectedStatusCodeError r) = http.Status r
    ∧ requests t' = (requests t + 3)%nat.
Proof.
  intros Hc Hp Ht Ha H200 H404.
  rewrite GetProductsFromQuery_credentials by done.
  destruct (loop_after_transients w (search_request w its query) 3 0
              None None t)
    as (response' & err' & t' & Heq & Hreq & _ & _ & _ & Hlast).
  { intros j Hj. split; [by apply Hp|].
    destruct (decide (j = 2%nat)) as [->|]; [|apply Ht; lia].
    rewrite Ha. simpl. by apply retry_status_true. }
  rewrite Ha in Hlast. destruct Hlast as [-> ->].
  exists t'. unfold bind. simpl Nat.add in Heq. rewrite Heq. simpl.
  rewrite bool_decide_eq_false_2, bool_decide_eq_true_2 by done.
  done.
Qed.

(** C4, as the code has it.  A call sends at most three requests; it sends
    at least one exactly when the client has credentials and the first wait
    for a token succeeds; and when one or two attempts are to be retried and
    the next one is answered 200 with a body that decodes, the call returns
    the decoded container and no error. *)
Theorem GetProductsFromQuery_attempts (w : World) (its : ITScopeCommunicator)
    (query : string) (t : Trace) :
  (requests (GetProductsFromQuery w its query t).2 ≤ requests t + 3)%nat
  ∧ ((requests t < requests (GetProductsFromQuery w its query t).2)%nat
     ↔ has_credentials its ∧ permit w t 0 = None)
  ∧ ∀ (k : nat) (r : http.Response) (products : ProductsContainer),
      has_credentials its →
      k = 1%nat ∨ k = 2%nat →
      (∀ j, (j ≤ k)%nat → permit w t j = None) →
      (∀ j, (j < k)%nat →
         transient (attempt w t (search_request w its query) j) = true) →
      attempt w t (search_request w its query) k = DoResponse r →
      http.StatusCode r = http.StatusOK →
      json_ProductsContainer w (http.Body r) = inr products →
      ∃ t',
        GetProductsFromQuery w its query t = (Some (Some products, None), t')
        ∧ requests t' = (requests t + S k)%nat.
Proof.
  split; [apply GetProductsFromQuery_requests|]. split.
  - destruct (has_credentials_dec its) as [Hc|Hm].
    + rewrite GetProductsFromQuery_credentials by done. unfold bind.
      pose proof (loop_first_request w (search_request w its query) 2
                    None None t) as Hfirst.
      destruct (GetProductsFromQuery_loop w _ 3 None None t)
        as [[exit|] t'] eqn:Hloop; simpl in *.
      * rewrite GetProductsFromQuery_end_trace. rewrite Hfirst. tauto.
      * rewrite Hfirst. tauto.
    + rewrite GetProductsFromQuery_missing by done. simpl.
      split; [lia|]. intros [[Hu Hp] _]. tauto.
  - intros k r products Hc Hk Hp Ht Ha H200 Hjson.
    rewrite GetProductsFromQuery_credentials by done.
    assert (∃ n, 3%nat = (k + S n)%nat) as [n ->]
      by (destruct Hk as [-> | ->]; [by exists 1%nat|by exists 0%nat]).
    destruct (loop_answer_after w (search_request w its query) k n
                None None t r) as (t' & Heq & Hreq & _).
    { intros j Hj. split; [apply Hp; lia|by apply Ht]. }
    { apply Hp. lia. }
    { done. }
    { by apply retry_status_200. }
    exists t'. unfold bind. rewrite Heq. simpl.
    rewrite bool_decide_eq_false_2
      by (rewrite H200; unfold http.StatusOK, http.StatusNotFound; lia).
    rewrite bool_decide_eq_false_2 by tauto.
    rewrite Hjson. done.
Qed.

(** C5.  When a query is answered 404, at the first attempt or after
    attempts that were to be retried, [GetProductsFromQuery] returns the
    empty container and no error, and nothing is sent or slept after the
    404: the requests are those up to the one answered 404.  For the query
    of a single article, [GetProductData] then returns no error either, and
    no product, on the same trace. *)
Theorem not_found_is_empty (w : World) (its : ITScopeCommunicator)
    (query : string) (t : Trace) (k : nat) (r : http.Response) :
  has_credentials its →
  (k < 3)%nat →
  (∀ j, (j ≤ k)%nat → permit w t j = None) →
  (∀ j, (j < k)%nat →
     transient (attempt w t (search_request w its query) j) = true) →
  attempt w t (search_request w its query) k = DoResponse r →
  http.StatusCode r = http.StatusNotFound →
  ∃ t',
    GetProductsFromQuery w its query t = (Some (Some empty_container, None), t')
    ∧ ProductsContainer_Product empty_container = []
    ∧ requests t' = (requests t + S k)%nat
    ∧ sleeps t' = (sleeps t + k)%nat
    ∧ ∀ productSKU, query = "distpid=" +:+ productSKU →
        GetProductData w its productSKU t = (Some (None, None), t').
Proof.
  intros Hc Hk Hp Ht Ha H404.
  assert (∃ n, 3%nat = (k + S n)%nat) as [n Hn] by (exists (2 - k)%nat; lia).
  destruct (loop_answer_after w (search_request w its query) k n
              None None t r) as (t' & Heq & Hreq & Hsl).
  { intros j Hj. split; [apply Hp; lia|by apply Ht]. }
  { apply Hp. lia. }
  { done. }
  { by apply retry_status_404. }
  assert (GetProductsFromQuery w its query t
          = (Some (Some empty_container, None), t')) as Hrun.
  { rewrite GetProductsFromQuery_credentials by done.
    unfold bind. rewrite Hn, Heq. simpl.
    by rewrite bool_decide_eq_true_2. }
  exists t'. repeat split; try done.
  intros productSKU ->. unfold GetProductData, bind. rewrite Hrun. done.
Qed.

(** C7.  A client whose user name or password is empty gets the
    missing-credentials error from [GetProductsFromQuery] and from
    [GetAllProductTypes], and the trace is left as it was: no request is
    sent, no token waited for. *)
Theorem missing_credentials_before_io (w : World) (its : ITScopeCommunicator)
    (query : string) (t : Trace) :
  username its = "" ∨ password its = "" →
  (∃ e, GetProductsFromQuery w its query t = (Some (None, Some e), t)
        ∧ missing_credentials e)
  ∧ (∃ e, GetAllProductTypes w its t = (Some (None, Some e), t)
          ∧ missing_credentials e)
  ∧ requests (GetProductsFromQuery w its query start).2 = 0%nat
  ∧ requests (GetAllProductTypes w its start).2 = 0%nat.
Proof.
  intros H.
  rewrite !GetProductsFromQuery_missing, !GetAllProductTypes_missing by done.
  split; [eexists; split; [done|reflexivity]|].
  split; [eexists; split; [done|reflexivity]|].
  done.
Qed.

(** C10.  Whenever the query for an article is answered by a container
    without products, as it is after a 404, [GetProductData] returns the nil
    product together with the nil error. *)
Theorem GetProductData_absent (w : World) (its : ITScopeCommunicator)
    (productSKU : string) (t t' : Trace) (c : ProductsContainer) :
  GetProductsFromQuery w its ("distpid=" +:+ productSKU) t
  = (Some (Some c, None), t') →
  ProductsContainer_Product c = [] →
  GetProductData w its productSKU t = (Some (None, None), t').
Proof.
  intros Hrun Hc. unfold GetProductData, bind. rewrite Hrun. simpl.
  by rewrite Hc.
Qed.

(** The same text in the revision of itscope.go. *)
Lemma Errgroup_no_product (w : World) (its : ITScopeCommunicator)
    (productSKU : string) (t t' : Trace) (c : ProductsContainer) :
  Errgroup.GetProductsFromQuery w its ("distpid=" +:+ productSKU) t
  = (Some (Some c, None), t') →
  ProductsContainer_Product c = [] →
  Errgroup.GetProductData w its productSKU t = (Some (None, None), t').
Proof.
  intros Hrun Hc. unfold Errgroup.GetProductData, bind. rewrite Hrun. simpl.
  by rewrite Hc.
Qed.

(** In the revision of itscope.go the credentials are checked before the
    one request as well, and a 404 is the empty container after that one
    request. *)
Lemma Errgroup_missing_credentials (w : World) (its : ITScopeCommunicator)
    (query : string) (t : Trace) :
  username its = "" ∨ password its = "" →
  Errgroup.GetProductsFromQuery w its query t
  = (Some (None, Some (ErrorString "no username or password set")), t)
  ∧ Errgroup.GetAllProductTypes w its t
    = (Some (None, Some (ErrorString "no username or password set")), t).
Proof.
  intros H. unfold Errgroup.GetProductsFromQuery, Errgroup.GetAllProductTypes.
  by rewrite !authenticateRequest_missing.
Qed.

Lemma Errgroup_not_found (w : World) (its : ITScopeCommunicator)
    (query : string) (t : Trace) (r : http.Response) :
  has_credentials its →
  attempt w t (search_request w its query) 0 = DoResponse r →
  http.StatusCode r = http.StatusNotFound →
  ∃ t',
    Errgroup.GetProductsFromQuery w its query t
    = (Some (Some empty_container, None), t')
    ∧ requests t' = S (requests t).
Proof.
  intros Hc Ha H404. unfold attempt in Ha. rewrite Nat.add_0_r in Ha.
  unfold Errgroup.GetProductsFromQuery.
  rewrite authenticateRequest_credentials by done.
  fold (search_request w its query). unfold bind, Do. rewrite Ha.
  rewrite bool_decide_eq_true_2 by done.
  eexists. split; [reflexivity|].
  unfold requests. simpl. rewrite length_app. simpl. lia.
Qed.

(** ** The fan-out aggregator *)

Section Aggregator.
Context (w : World) (its : ITScopeCommunicator).

Lemma GetProductAccessoriesFromList_range_queried (queryStrings : list string)
    (productList : list Product) (t : Trace) :
  ∃ cs oe t',
    queried w its queryStrings t cs oe t'
    ∧ GetProductAccessoriesFromList_range w its queryStrings productList t
      = (Some match oe with
              | Some e => (None, Some e)
              | None =>
                  (Some (productList
                         ++ concat (ProductsContainer_Product <$> cs)), None)
              end, t')
    ∧ (oe = None → length cs = length queryStrings).
Proof.
  revert productList t.
  induction queryStrings as [|query queries IH]; intros productList t.
  - exists [], None, t. split; [constructor|]. simpl.
    by rewrite app_nil_r.
  - cbn [GetProductAccessoriesFromList_range]. unfold bind at 1.
    destruct (GetProductsFromQuery_total w its query t)
      as (t1 & [[c Hrun]|[e Hrun]]); rewrite Hrun.
    + simpl. unfold bind at 1. simpl.
      destruct (IH (productList ++ ProductsContainer_Product c) t1)
        as (cs & oe & t' & Hq & -> & Hlen).
      exists (c :: cs), oe, t'. split; [by econstructor|].
      split; [|intros ?; simpl; f_equal; auto].
      destruct oe; [done|]. simpl. by rewrite <- app_assoc.
    + exists [], (Some e), t1. split; [by eapply queried_err|]. done.
Qed.

End Aggregator.

Lemma createQueryStrings_fifty (products : list string) :
  len products ≤ max_int →
  ∃ queryStrings, createQueryStrings products 50 = Some queryStrings.
Proof.
  intros Hn. rewrite createQueryStrings_groups.
  rewrite queryGroups_chunks by (unfold max_int in *; lia).
  by eexists.
Qed.

(** The sequential aggregator: the groups are queried in the order of the
    batcher up to the first error.  If there is one, it is returned next to
    the nil slice, whatever the groups before it were answered with;
    otherwise the records of all groups are returned, concatenated in the
    order of the groups. *)
Lemma GetProductAccessoriesFromList_first_error (w : World)
    (its : ITScopeCommunicator) (products : list string) (t : Trace) :
  len products ≤ max_int →
  ∃ queryStrings cs oe t',
    createQueryStrings products 50 = Some queryStrings
    ∧ queried w its queryStrings t cs oe t'
    ∧ match oe with
      | Some e =>
          GetProductAccessoriesFromList w its products t
          = (Some (None, Some e), t')
      | None =>
          length cs = length queryStrings
          ∧ ∃ result,
              GetProductAccessoriesFromList w its products t
              = (Some (result, None), t')
              ∧ elems result = concat (ProductsContainer_Product <$> cs)
      end.
Proof.
  intros Hn. destruct (createQueryStrings_fifty products Hn) as [qs Hqs].
  unfold GetProductAccessoriesFromList. case_bool_decide as Hempty.
  - assert (products = []) as ->
      by (destruct products; [done|unfold len in Hempty; simpl in *; lia]).
    assert (qs = []) as -> by (vm_compute in Hqs; congruence).
    exists [], [], None, t. split; [done|]. split; [constructor|].
    split; [done|]. by exists None.
  - rewrite Hqs. cbv beta iota delta [bind lift ret].
    destruct (GetProductAccessoriesFromList_range_queried w its qs [] t)
      as (cs & oe & t' & Hq & -> & Hlen).
    exists qs, cs, oe, t'. split; [done|]. split; [done|].
    destruct oe; [done|]. split; [auto|].
    eexists. split; [reflexivity|]. done.
Qed.

(** C8.  For the empty identifier list the aggregator returns the nil
    slice, which is empty, and the nil error, and leaves the trace as it
    was: nothing is sent.  So does the aggregator of itscope.go, whatever
    the schedule: it returns before any goroutine is started. *)
Theorem GetProductAccessoriesFromList_empty (w : World)
    (its : ITScopeCommunicator) (t : Trace)
    (schedule : list string → list string) :
  GetProductAccessoriesFromList w its [] t = (Some (None, None), t)
  ∧ elems (None : option (list Product)) = []
  ∧ requests (GetProductAccessoriesFromList w its [] start).2 = 0%nat
  ∧ Errgroup.GetProductAccessoriesFromList w its schedule [] t
    = (Some (None, None), t)
  ∧ requests
      (Errgroup.GetProductAccessoriesFromList w its schedule [] start).2
    = 0%nat.
Proof. done. Qed.

(** ** Filters *)

Lemma foldl_append_filter {A} (P : A → Prop) `{∀ x, Decision (P x)}
    (l acc : list A) :
  foldl (λ acc x, if bool_decide (P x) then acc ++ [x] else acc) acc l
  = acc ++ filter P l.
Proof.
  revert acc. induction l as [|x l IH]; intros acc; simpl.
  - by rewrite app_nil_r.
  - rewrite IH. rewrite filter_cons. case_bool_decide; case_decide; try done.
    by rewrite <- app_assoc.
Qed.

Lemma FilterProductTypesByGroupId_filter groupId productTypes :
  FilterProductTypesByGroupId groupId productTypes
  = filter (λ productType,
              ProductTypeGroup_ID (ProductType_ProductTypeGroup productType)
              = groupId) productTypes.
Proof.
  unfold FilterProductTypesByGroupId.
  apply (foldl_append_filter
           (λ productType,
              ProductTypeGroup_ID (ProductType_ProductTypeGroup productType)
              = groupId) productTypes []).
Qed.

Lemma FilterProductTypesById_filter id productTypes :
  FilterProductTypesById id productTypes
  = filter (λ productType, ProductType_ID productType = id) productTypes.
Proof.
  unfold FilterProductTypesById.
  apply (foldl_append_filter (λ productType, ProductType_ID productType = id)
           productTypes []).
Qed.

Lemma filteredProducts_of_assignments products typeList :
  filteredProducts_of products typeList
  = assign_all (assignments products typeList) ∅.
Proof.
  unfold filteredProducts_of, assignments, assign_all.
  generalize (∅ : gmap string Product).
  induction typeList as [|productType typeList IH]; intros m; [done|].
  cbn [foldl mbind list_bind]. simpl. rewrite foldl_app, IH. f_equal.
  clear. revert m. induction products as [|p products IH]; intros m; [done|].
  simpl. rewrite filter_cons. rewrite IH.
  destruct (type_matches p productType); case_decide; done.
Qed.

Lemma last_assigned_snoc l q p :
  last_assigned (l ++ [q]) p
  ↔ p = q ∨ (last_assigned l p ∧ Puid q ≠ Puid p).
Proof.
  split.
  - intros (l1 & l2 & Heq & Hl2).
    destruct l2 as [|x l2 _] using rev_ind.
    + apply app_inj_tail in Heq as [_ ->]. by left.
    + rewrite app_comm_cons, app_assoc in Heq.
      apply app_inj_tail in Heq as [-> ->].
      apply Forall_app in Hl2 as [Hl2 Hx]. right. split.
      * by exists l1, l2.
      * by inversion Hx.
  - intros [->|[(l1 & l2 & -> & Hl2) Hq]].
    + exists l, []. by split.
    + exists l1, (l2 ++ [q]). rewrite <- app_assoc. split; [done|].
      apply Forall_app. split; [done|]. by constructor.
Qed.

Lemma assign_all_lookup l k p :
  assign_all l ∅ !! k = Some p ↔ Puid p = k ∧ last_assigned l p.
Proof.
  revert k p. induction l as [|q l IH] using rev_ind; intros k p.
  - simpl. rewrite lookup_empty. split; [done|].
    intros [_ (l1 & l2 & Heq & _)]. by destruct l1.
  - unfold assign_all in *. rewrite foldl_app. simpl.
    rewrite last_assigned_snoc.
    destruct (decide (Puid q = k)) as [<-|Hne].
    + rewrite lookup_insert_eq. split.
      * intros [= ->]. auto.
      * intros [Hk [->|[_ Hq]]]; [done|]. congruence.
    + rewrite lookup_insert_ne by done. rewrite IH. split.
      * intros [Hk Hl]. split; [done|]. right. split; [done|]. congruence.
      * intros [Hk [->|[Hl _]]]; [done|]. done.
Qed.

Lemma last_assigned_elem_of l p : last_assigned l p → p ∈ l.
Proof. intros (l1 & l2 & -> & _). set_solver. Qed.

Lemma elem_of_assignments p products typeList :
  p ∈ assignments products typeList
  ↔ p ∈ products
    ∧ ∃ productType, productType ∈ typeList
                     ∧ type_matches p productType = true.
Proof.
  unfold assignments. rewrite list_elem_of_bind. split.
  - intros (ty & Hp & Hty). apply list_elem_of_filter in Hp as [Hm Hp].
    eauto.
  - intros (Hp & ty & Hty & Hm). exists ty. split; [|done].
    by apply list_elem_of_filter.
Qed.

Section MapOrder.
Context (w : World) (Horder : range_order_ok w).

Lemma elem_of_FilterProductsByTypeList products typeList p :
  p ∈ FilterProductsByTypeList w products typeList
  ↔ last_assigned (assignments products typeList) p.
Proof.
  unfold FilterProductsByTypeList.
  rewrite filteredProducts_of_assignments.
  rewrite list_elem_of_fmap. split.
  - intros ([k p'] & -> & Hin). rewrite (Horder _) in Hin.
    apply elem_of_map_to_list in Hin.
    by apply assign_all_lookup in Hin as [_ Hin].
  - intros Hl. exists (Puid p, p). split; [done|].
    rewrite (Horder _). apply elem_of_map_to_list.
    by apply assign_all_lookup.
Qed.

Lemma FilterProductsByTypeList_NoDup products typeList :
  NoDup (Puid <$> FilterProductsByTypeList w products typeList).
Proof.
  unfold FilterProductsByTypeList.
  rewrite filteredProducts_of_assignments.
  set (m := assign_all _ _).
  assert (Puid <$> (range_order w m).*2 = (range_order w m).*1) as ->.
  { rewrite <- list_fmap_compose. apply list_fmap_ext.
    intros i [k p] Hi. simpl.
    assert ((k, p) ∈ range_order w m) as Hin
      by (apply list_elem_of_lookup; eauto).
    rewrite (Horder _) in Hin. apply elem_of_map_to_list in Hin.
    by apply assign_all_lookup in Hin as [? _]. }
  rewrite (Horder _). apply NoDup_fst_map_to_list.
Qed.

End MapOrder.

Lemma type_matches_true product productType :
  type_matches product productType = true
  ↔ ProductTypeID product = ProductType_ID productType
    ∧ ProductTypeID product ≠ ""
    ∧ group_of productType ≠ "".
Proof.
  unfold type_matches, group_of.
  rewrite !andb_true_iff, !bool_decide_eq_true. tauto.
Qed.

(** C9.  Whatever catalog of product types and whatever accessories the
    two fetches return, [GetServiceTypeAccessoriesOfProduct] returns a
    slice in which no product identifier occurs twice (the product kept for
    an identifier is the one assigned last in the nested loops), in which
    every product is one of the fetched accessories whose type identifier
    is that of a catalog type of group SSP, and which is empty when no
    fetched accessory has the type identifier of such a type. *)
Theorem GetServiceTypeAccessoriesOfProduct_service_types (w : World)
    (its : ITScopeCommunicator) (product : Product) (t t1 t2 : Trace)
    (catalog : option (list ProductType))
    (accessories : option (list Product)) :
  range_order_ok w →
  GetAllProductTypes w its t = (Some (catalog, None), t1) →
  GetProductAccessories w its (Some product) t1 = (Some (accessories, None), t2) →
  ∃ out,
    GetServiceTypeAccessoriesOfProduct w its (Some product) t
    = (Some (Some out, None), t2)
    ∧ NoDup (Puid <$> out)
    ∧ (∀ p, p ∈ out ↔
            last_assigned
              (assignments (elems accessories)
                 (FilterProductTypesByGroupId "SSP" (elems catalog))) p)
    ∧ (∀ p, p ∈ out →
            p ∈ elems accessories
            ∧ ∃ productType,
                productType ∈ elems catalog
                ∧ group_of productType = "SSP"
                ∧ ProductTypeID p = ProductType_ID productType)
    ∧ ((∀ a productType,
          a ∈ elems accessories → productType ∈ elems catalog →
          group_of productType = "SSP" →
          ProductTypeID a ≠ ProductType_ID productType) →
       out = []).
Proof.
  intros Horder Htypes Hacc.
  set (serviceTypes := FilterProductTypesByGroupId "SSP" (elems catalog)).
  exists (FilterProductsByTypeList w (elems accessories) serviceTypes).
  assert (∀ p,
            p ∈ FilterProductsByTypeList w (elems accessories) serviceTypes →
            p ∈ elems accessories
            ∧ ∃ productType,
                productType ∈ elems catalog
                ∧ group_of productType = "SSP"
                ∧ ProductTypeID p = ProductType_ID productType) as Honly.
  { intros p Hp. apply elem_of_FilterProductsByTypeList in Hp; [|done].
    apply last_assigned_elem_of, elem_of_assignments in Hp
      as (Hin & ty & Hty & Hm).
    split; [done|]. exists ty.
    unfold serviceTypes in Hty.
    rewrite FilterProductTypesByGroupId_filter in Hty.
    apply list_elem_of_filter in Hty as [Hgroup Hty].
    apply type_matches_true in Hm as (Hid & _ & _). done. }
  split.
  { unfold GetServiceTypeAccessoriesOfProduct, bind.
    rewrite Htypes. simpl. rewrite Hacc. done. }
  split; [by apply FilterProductsByTypeList_NoDup|].
  split; [intros p; by apply elem_of_FilterProductsByTypeList|].
  split; [done|].
  intros Hnone. apply elem_of_nil_inv. intros p Hp.
  destruct (Honly p Hp) as (Hin & ty & Hty & Hgroup & Hid).
  by destruct (Hnone p ty).
Qed.

(** ** Runs against the sample servers *)

Lemma GetProductsFromQuery_unexpected_status_witness :
  ∃ t',
    GetProductsFromQuery (sample_world always_500) sample_client "id=1" start
    = (Some (None,
             Some (StatusCodeError
                     {| Message := "500 Internal Server Error";
                        StatusCode := 500 |})), t')
    ∧ requests t' = 3%nat.
Proof.
  destruct (GetProductsFromQuery_unexpected_status
              (sample_world always_500) sample_client "id=1" start
              {| http.Status := "500 Internal Server Error";
                 http.StatusCode := 500; http.Body := "" |})
    as (t' & Hrun & _ & _ & Hreq).
  - split; discriminate.
  - intros j Hj. reflexivity.
  - intros j Hj. reflexivity.
  - reflexivity.
  - vm_compute. discriminate.
  - vm_compute. discriminate.
  - exists t'. split; [exact Hrun|exact Hreq].
Defined.

(** C4, as stated, fails: a client without credentials sends nothing. *)
Lemma GetProductsFromQuery_sends_nothing :
  ¬ ∀ (w : World) (its : ITScopeCommunicator) (query : string),
      (1 ≤ requests (GetProductsFromQuery w its query start).2 ≤ 3)%nat.
Proof.
  intros H.
  specialize (H (sample_world down_then_up) anonymous_client "id=1").
  vm_compute in H. lia.
Qed.

Lemma GetProductsFromQuery_attempts_witness :
  ∃ t',
    GetProductsFromQuery (sample_world down_then_up) sample_client "id=1"
      start
    = (Some (Some {| ProductsContainer_Product := [sample_product "X" "T1"] |},
             None), t')
    ∧ requests t' = 2%nat.
Proof.
  destruct (GetProductsFromQuery_attempts
              (sample_world down_then_up) sample_client "id=1" start)
    as (_ & _ & Hlater).
  apply (Hlater 1%nat
           {| http.Status := "200 OK"; http.StatusCode := 200;
              http.Body := "X" |}).
  - split; discriminate.
  - left. reflexivity.
  - intros j Hj. reflexivity.
  - intros j Hj. assert (j = 0%nat) as -> by lia. reflexivity.
  - reflexivity.
  - reflexivity.
  - reflexivity.
Defined.

Lemma not_found_is_empty_witness :
  ∃ t',
    GetProductsFromQuery (sample_world always_404) sample_client
      "distpid=4711" start
    = (Some (Some empty_container, None), t')
    ∧ ProductsContainer_Product empty_container = []
    ∧ requests t' = 1%nat
    ∧ sleeps t' = 0%nat
    ∧ ∀ productSKU, "distpid=4711" = "distpid=" +:+ productSKU →
        GetProductData (sample_world always_404) sample_client productSKU
          start
        = (Some (None, None), t').
Proof.
  apply (not_found_is_empty (sample_world always_404) sample_client
           "distpid=4711" start 0
           {| http.Status := "404 Not Found"; http.StatusCode := 404;
              http.Body := "" |}).
  - split; discriminate.
  - lia.
  - intros j Hj. reflexivity.
  - intros j Hj. lia.
  - reflexivity.
  - reflexivity.
Defined.

Lemma missing_credentials_before_io_witness :
  (∃ e, GetProductsFromQuery (sample_world down_then_up) anonymous_client
          "id=1" start
        = (Some (None, Some e), start)
        ∧ missing_credentials e)
  ∧ (∃ e, GetAllProductTypes (sample_world down_then_up) anonymous_client
            start
          = (Some (None, Some e), start)
          ∧ missing_credentials e)
  ∧ requests (GetProductsFromQuery (sample_world down_then_up)
                anonymous_client "id=1" start).2 = 0%nat
  ∧ requests (GetAllProductTypes (sample_world down_then_up)
                anonymous_client start).2 = 0%nat.
Proof.
  apply (missing_credentials_before_io (sample_world down_then_up)
           anonymous_client "id=1" start).
  left. reflexivity.
Defined.

Lemma GetProductData_absent_witness :
  GetProductData (sample_world always_404) sample_client "4711" start
  = (Some (None, None),
     (GetProductsFromQuery (sample_world always_404) sample_client
        "distpid=4711" start).2).
Proof.
  apply (GetProductData_absent (sample_world always_404) sample_client
           "4711" start _ empty_container).
  - vm_compute. reflexivity.
  - reflexivity.
Defined.

Lemma GetServiceTypeAccessoriesOfProduct_service_types_witness :
  ∃ out,
    GetServiceTypeAccessoriesOfProduct (sample_world catalog_then_up)
      sample_client (Some sample_bundle) start
    = (Some (Some out, None),
       (GetProductAccessories (sample_world catalog_then_up) sample_client
          (Some sample_bundle)
          (GetAllProductTypes (sample_world catalog_then_up) sample_client
             start).2).2)
    ∧ NoDup (Puid <$> out)
    ∧ ∀ p, p ∈ out → p ∈ [sample_product "X" "T1"].
Proof.
  destruct (GetServiceTypeAccessoriesOfProduct_service_types
              (sample_world catalog_then_up) sample_client sample_bundle
              start
              (GetAllProductTypes (sample_world catalog_then_up)
                 sample_client start).2
              (GetProductAccessories (sample_world catalog_then_up)
                 sample_client (Some sample_bundle)
                 (GetAllProductTypes (sample_world catalog_then_up)
                    sample_client start).2).2
              (Some [sample_type "T1" "SSP"])
              (Some [sample_product "X" "T1"]))
    as (out & Hrun & Hnodup & _ & Honly & _).
  - intros m. reflexivity.
  - vm_compute. reflexivity.
  - vm_compute. reflexivity.
  - exists out. split; [exact Hrun|]. split; [exact Hnodup|].
    intros p Hp. exact (proj1 (Honly p Hp)).
Defined.

(** ** The errgroup revision *)

Section ErrgroupRuns.
Context (w : World) (its : ITScopeCommunicator).

(** No goroutine takes a record out of [productList], and the error the
    group keeps is the first one. *)
Lemma Errgroup_run_workers_keeps (queries : list string)
    (sh sh' : Errgroup.Shared) (t t' : Trace) :
  Errgroup.run_workers w its queries sh t = (Some sh', t') →
  Errgroup.productList sh `prefix_of` Errgroup.productList sh'
  ∧ (is_Some (Errgroup.group_err sh) →
     Errgroup.group_err sh' = Errgroup.group_err sh).
Proof.
  revert sh t. induction queries as [|query queries IH]; intros sh t.
  - intros [= <- <-]. done.
  - cbn [Errgroup.run_workers]. unfold bind at 1, Errgroup.worker, bind at 1.
    destruct (Errgroup.GetProductsFromQuery w its query t)
      as [[[product [e|]]|] t1]; [| |done].
    + intros Hrun. apply IH in Hrun as [Hpre Herr]. simpl in *.
      split; [done|]. intros [e0 He0]. rewrite He0 in Herr.
      rewrite Herr, He0; eauto.
    + destruct product as [c|]; [|done]. simpl.
      intros Hrun. apply IH in Hrun as [Hpre Herr]. simpl in *.
      split; [|done]. etrans; [|done]. by apply prefix_app_r.
Qed.

End ErrgroupRuns.

(** C2 in the revision of itscope.go.  Fifty-one identifiers make two
    groups.  Against a server that answers the first request it gets with
    the product X and every later one with status 500, whichever of the two
    goroutines runs first, the call returns the error of the other one next
    to a slice that holds X: the records of the group that was answered are
    handed to the caller together with the error. *)
Theorem Errgroup_GetProductAccessoriesFromList_partial
    (schedule : list string → list string) :
  (∀ queries, schedule queries ≡ₚ queries) →
  (Errgroup.GetProductAccessoriesFromList (sample_world up_then_down)
     sample_client schedule fifty_one start).1
  = Some (Some [sample_product "X" "T1"],
          Some (ErrorFormat "500 Internal Server Error")).
Proof.
  intros Hsched. unfold Errgroup.GetProductAccessoriesFromList.
  rewrite bool_decide_eq_false_2 by (vm_compute; discriminate).
  destruct (createQueryStrings fifty_one 50) as [queries|] eqn:Hq;
    [|vm_compute in Hq; discriminate].
  vm_compute in Hq. injection Hq as <-.
  cbv beta iota delta [bind lift ret].
  match goal with
  | |- context [schedule ?qs] =>
      pose proof (Hsched qs) as Hperm; symmetry in Hperm;
      apply Permutation_length_2_inv in Hperm as [-> | ->]
  end; vm_compute; reflexivity.
Qed.

Lemma Errgroup_GetProductAccessoriesFromList_partial_witness :
  (Errgroup.GetProductAccessoriesFromList (sample_world up_then_down)
     sample_client (λ queries, queries) fifty_one start).1
  = Some (Some [sample_product "X" "T1"],
          Some (ErrorFormat "500 Internal Server Error")).
Proof.
  apply (Errgroup_GetProductAccessoriesFromList_partial (λ queries, queries)).
  intros queries. reflexivity.
Defined.

(** The sequential revision against the same server: the error alone. *)
Example GetProductAccessoriesFromList_discards :
  (GetProductAccessoriesFromList (sample_world up_then_down) sample_client
     fifty_one start).1
  = Some (None,
          Some (StatusCodeError {| Message := "500 Internal Server Error";
                                   StatusCode := 500 |})).
Proof. vm_compute. reflexivity. Qed.

(** * Further properties *)

(** ** The retry loop, with its trace *)

Section RetryTrace.
Context (w : World) (request : http.Request).
Implicit Types (t : Trace) (k n : nat).

Lemma after_retries_retried t k :
  after_retries (retried t request) request k
  = after_retries t request (S k).
Proof.
  unfold after_retries. simpl. rewrite <- app_assoc. simpl.
  f_equal; lia.
Qed.

Lemma after_retries_0 t : after_retries t request 0 = t.
Proof.
  unfold after_retries. simpl. rewrite app_nil_r, !Nat.add_0_r.
  by destruct t.
Qed.

Lemma permit_after_retries t k j :
  permit w (after_retries t request k) j = permit w t (k + j).
Proof. unfold permit. simpl. f_equal. lia. Qed.

Lemma attempt_after_retries t k j :
  attempt w (after_retries t request k) request j
  = attempt w t request (k + j).
Proof.
  unfold attempt. simpl. rewrite length_app, length_replicate.
  f_equal. lia.
Qed.

(** [k] attempts that are retried take the loop to the trace
    [after_retries t request k], with the variables as the last of them
    left them. *)
Lemma loop_retries k n response err t :
  (∀ j, (j < k)%nat →
     permit w t j = None ∧ transient (attempt w t request j) = true) →
  ∃ response' err',
    GetProductsFromQuery_loop w request (k + n) response err t
    = GetProductsFromQuery_loop w request n response' err'
        (after_retries t request k)
    ∧ match k with
      | O => response' = response ∧ err' = err
      | S k' =>
          match attempt w t request k' with
          | DoError e => response' = None ∧ err' = Some e
          | DoResponse r => response' = Some r ∧ err' = None
          end
      end.
Proof.
  revert response err t. induction k as [|k IH]; intros response err t Hk.
  - exists response, err. by rewrite after_retries_0.
  - destruct (Hk 0%nat ltac:(lia)) as [Hw Ht].
    cbn [Nat.add]. rewrite loop_retry by done.
    assert (∀ j, (j < k)%nat →
              permit w (retried t request) j = None
              ∧ transient (attempt w (retried t request) request j) = true)
      as Hk'.
    { intros j Hj. rewrite permit_retried, attempt_retried.
      apply Hk. lia. }
    destruct (attempt w t request 0) as [e|r] eqn:Ha.
    + destruct (IH None (Some e) _ Hk') as (response' & err' & -> & Hlast).
      exists response', err'. rewrite after_retries_retried.
      split; [done|]. destruct k as [|k'].
      * by rewrite Ha.
      * by rewrite attempt_retried in Hlast.
    + destruct (IH (Some r) None _ Hk') as (response' & err' & -> & Hlast).
      exists response', err'. rewrite after_retries_retried.
      split; [done|]. destruct k as [|k'].
      * by rewrite Ha.
      * by rewrite attempt_retried in Hlast.
Qed.

(** The loop left by an answer after [k] retried attempts. *)
Lemma loop_answered k n response err t r :
  (∀ j, (j < k)%nat →
     permit w t j = None ∧ transient (attempt w t request j) = true) →
  permit w t k = None →
  attempt w t request k = DoResponse r → retry_status r = false →
  GetProductsFromQuery_loop w request (k + S n) response err t
  = (Some (LoopEnd (Some r) None),
     answered (after_retries t request k) request).
Proof.
  intros Hk Hw Ha Hr.
  destruct (loop_retries k (S n) response err t Hk)
    as (response' & err' & -> & _).
  apply loop_break; [|by rewrite attempt_after_retries, Nat.add_0_r|done].
  by rewrite permit_after_retries, Nat.add_0_r.
Qed.

(** The loop left by a wait that fails after [k] retried attempts. *)
Lemma loop_timed_out k n response err t e :
  (∀ j, (j < k)%nat →
     permit w t j = None ∧ transient (attempt w t request j) = true) →
  permit w t k = Some e →
  GetProductsFromQuery_loop w request (k + S n) response err t
  = (Some (LoopReturn (WrapError "limiter timeout" e)),
     waited (after_retries t request k)).
Proof.
  intros Hk Hw.
  destruct (loop_retries k (S n) response err t Hk)
    as (response' & err' & -> & _).
  apply loop_limiter. by rewrite permit_after_retries, Nat.add_0_r.
Qed.

(** The loop left after three attempts that were all to be retried. *)
Lemma loop_exhausted t :
  (∀ j, (j < 3)%nat →
     permit w t j = None ∧ transient (attempt w t request j) = true) →
  ∃ response' err',
    GetProductsFromQuery_loop w request 3 None None t
    = (Some (LoopEnd response' err'), after_retries t request 3)
    ∧ match attempt w t request 2 with
      | DoError e => response' = None ∧ err' = Some e
      | DoResponse r => response' = Some r ∧ err' = None ∧
                        retry_status r = true
      end.
Proof.
  intros Hk.
  destruct (loop_retries 3 0 None None t Hk)
    as (response' & err' & Heq & Hlast).
  exists response', err'. split; [exact Heq|].
  destruct (Hk 2%nat ltac:(lia)) as [_ Ht].
  destruct (attempt w t request 2) as [e|r]; [done|].
  destruct Hlast as [-> ->]. done.
Qed.

(** The shape of every run of the loop: it never panics, sends [j] copies
    of the request for some [j] up to [retries], has waited for a token
    before each of them and at most once more, and has slept at most once
    per request. *)
Lemma loop_shape retries response err t :
  ∃ exit t' j,
    GetProductsFromQuery_loop w request retries response err t
    = (Some exit, t')
    ∧ (j ≤ retries)%nat
    ∧ sent t' = sent t ++ replicate j request
    ∧ (waits t' = (waits t + j)%nat ∨ waits t' = (waits t + S j)%nat)
    ∧ (sleeps t ≤ sleeps t' ≤ sleeps t + j)%nat
    ∧ (exit = LoopEnd None None →
       response = None ∧ err = None ∧ retries = 0%nat).
Proof.
  revert response err t. induction retries as [|n IH]; intros response err t.
  - exists (LoopEnd response err), t, 0%nat. simpl.
    rewrite app_nil_r, Nat.add_0_r.
    split; [done|]. split; [lia|]. split; [done|]. split; [by left|].
    split; [lia|]. by intros [= -> ->].
  - destruct (permit w t 0) as [e|] eqn:Hw.
    { eexists _, _, 0%nat. split; [by apply loop_limiter|]. simpl.
      rewrite app_nil_r.
      split; [lia|]. split; [done|]. split; [right; lia|].
      split; [lia|done]. }
    assert (∀ exit t' j response0 err0,
              (response0, err0) ≠ (None, None) →
              GetProductsFromQuery_loop w request n response0 err0
                (retried t request) = (Some exit, t') →
              (j ≤ n)%nat →
              sent t' = sent (retried t request) ++ replicate j request →
              (waits t' = (waits (retried t request) + j)%nat
               ∨ waits t' = (waits (retried t request) + S j)%nat) →
              (sleeps (retried t request) ≤ sleeps t'
               ≤ sleeps (retried t request) + j)%nat →
              (exit = LoopEnd None None →
               response0 = None ∧ err0 = None ∧ n = 0%nat) →
              (S j ≤ S n)%nat
              ∧ sent t' = sent t ++ replicate (S j) request
              ∧ (waits t' = (waits t + S j)%nat
                 ∨ waits t' = (waits t + S (S j))%nat)
              ∧ (sleeps t ≤ sleeps t' ≤ sleeps t + S j)%nat
              ∧ (exit = LoopEnd None None →
                 response = None ∧ err = None ∧ S n = 0%nat)) as Hstep.
    { intros exit t' j response0 err0 Hne _ Hj Hsent Hwaits Hsleeps Hex.
      simpl in *. split; [lia|].
      split; [by rewrite Hsent, <- app_assoc|].
      split; [lia|]. split; [lia|].
      intros ->. destruct (Hex eq_refl) as (-> & -> & _). done. }
    destruct (transient (attempt w t request 0)) eqn:Ht.
    + rewrite loop_retry by done.
      destruct (attempt w t request 0) as [e|r].
      * destruct (IH None (Some e) (retried t request))
          as (exit & t' & j & Hrun & H1 & H2 & H3 & H4 & H5).
        exists exit, t', (S j). split; [done|].
        by apply (Hstep exit t' j None (Some e)).
      * destruct (IH (Some r) None (retried t request))
          as (exit & t' & j & Hrun & H1 & H2 & H3 & H4 & H5).
        exists exit, t', (S j). split; [done|].
        by apply (Hstep exit t' j (Some r) None).
    + destruct (attempt w t request 0) as [e|r] eqn:Ha; [done|].
      simpl in Ht. eexists _, _, 1%nat.
      split; [by eapply loop_break|]. simpl.
      split; [lia|]. split; [done|]. split; [left; lia|].
      split; [lia|done].
Qed.

End RetryTrace.

(** ** The query executor: every way out *)

Lemma has_credentials_all (w : World) (its : ITScopeCommunicator)
    (request : http.Request) (t : Trace) (k : nat) :
  (∀ j, (j ≤ k)%nat → permit w t j = None) →
  (∀ j, (j < k)%nat → transient (attempt w t request j) = true) →
  ∀ j, (j < k)%nat →
    permit w t j = None ∧ transient (attempt w t request j) = true.
Proof. intros Hp Ht j Hj. split; [apply Hp; lia|by apply Ht]. Qed.

Lemma budget_split (k : nat) : (k < 3)%nat → ∃ n, 3%nat = (k + S n)%nat.
Proof. intros Hk. exists (2 - k)%nat. lia. Qed.

(** The shape of every run of the executor. *)
Lemma GetProductsFromQuery_shape (w : World) (its : ITScopeCommunicator)
    (query : string) (t : Trace) :
  ∃ result t' j,
    GetProductsFromQuery w its query t = (Some result, t')
    ∧ ((∃ c, result = (Some c, None)) ∨ (∃ e, result = (None, Some e)))
    ∧ (j ≤ 3)%nat
    ∧ sent t' = sent t ++ replicate j (search_request w its query)
    ∧ (waits t' = (waits t + j)%nat ∨ waits t' = (waits t + S j)%nat)
    ∧ (sleeps t ≤ sleeps t' ≤ sleeps t + j)%nat.
Proof.
  destruct (has_credentials_dec its) as [Hc|Hm].
  - rewrite GetProductsFromQuery_credentials by done. unfold bind.
    destruct (loop_shape w (search_request w its query) 3 None None t)
      as (exit & t' & j & -> & Hj & Hsent & Hwaits & Hsleeps & Hex).
    assert (∃ result,
              GetProductsFromQuery_end w exit t' = (Some result, t')
              ∧ ((∃ c, result = (Some c, None))
                 ∨ (∃ e, result = (None, Some e)))) as (result & -> & Hres).
    { destruct exit as [e|[r|] [e|]]; simpl; eauto.
      - case_bool_decide; [eauto|]. case_bool_decide; [eauto|].
        destruct (json_ProductsContainer w (http.Body r)); eauto.
      - by destruct Hex as (_ & _ & ?). }
    by exists result, t', j.
  - rewrite GetProductsFromQuery_missing by done.
    eexists _, t, 0%nat. split; [done|]. split; [eauto|].
    simpl. rewrite app_nil_r. split; [lia|]. split; [done|].
    split; [left|]; lia.
Qed.

(** X1.  [GetProductsFromQuery] never panics (the response it reads after
    the loop is never nil) and returns either a container or an error,
    never both and never neither.  What it sends is up to three copies of
    one and the same request; it has waited for a token before each of them
    and at most once more; and it sleeps at most once per request. *)
Theorem GetProductsFromQuery_run_shape (w : World) (its : ITScopeCommunicator)
    (query : string) (t : Trace) :
  ∃ result t' j,
    GetProductsFromQuery w its query t = (Some result, t')
    ∧ ((∃ c, result = (Some c, None)) ∨ (∃ e, result = (None, Some e)))
    ∧ (j ≤ 3)%nat
    ∧ sent t' = sent t ++ replicate j (search_request w its query)
    ∧ (waits t' = (waits t + j)%nat ∨ waits t' = (waits t + S j)%nat)
    ∧ (sleeps t ≤ sleeps t' ≤ sleeps t + j)%nat.
Proof. apply GetProductsFromQuery_shape. Qed.

(** X2.  When, after attempts that were to be retried, the wait for a token
    fails, the call returns that error as a limiter timeout and gives up
    the rest of its budget: nothing is sent after the failed wait. *)
Theorem GetProductsFromQuery_limiter_timeout (w : World)
    (its : ITScopeCommunicator) (query : string) (t : Trace) (k : nat)
    (e : error) :
  has_credentials its →
  (k < 3)%nat →
  (∀ j, (j < k)%nat → permit w t j = None) →
  (∀ j, (j < k)%nat →
     transient (attempt w t (search_request w its query) j) = true) →
  permit w t k = Some e →
  GetProductsFromQuery w its query t
  = (Some (None, Some (WrapError "limiter timeout" e)),
     waited (after_retries t (search_request w its query) k))
  ∧ requests (waited (after_retries t (search_request w its query) k))
    = (requests t + k)%nat.
Proof.
  intros Hc Hk Hp Ht He.
  destruct (budget_split k Hk) as [n Hn].
  rewrite GetProductsFromQuery_credentials by done. unfold bind.
  rewrite Hn, (loop_timed_out _ _ k n None None t e); [| |done].
  - split; [done|]. unfold requests. simpl.
    by rewrite length_app, length_replicate.
  - intros j Hj. split; [by apply Hp|by apply Ht].
Qed.

(** X3.  When all three attempts are to be retried, the call has sent three
    requests and slept three times, once after the last attempt as well,
    and returns an error made of the last attempt alone: its transport
    error wrapped, or the status-code error of its response. *)
Theorem GetProductsFromQuery_exhausted (w : World) (its : ITScopeCommunicator)
    (query : string) (t : Trace) :
  has_credentials its →
  (∀ j, (j < 3)%nat → permit w t j = None) →
  (∀ j, (j < 3)%nat →
     transient (attempt w t (search_request w its query) j) = true) →
  GetProductsFromQuery w its query t
  = (Some (None,
           Some (exhausted_error "GetProductsFromQuery"
                   (attempt w t (search_request w its query) 2))),
     after_retries t (search_request w its query) 3)
  ∧ requests (after_retries t (search_request w its query) 3)
    = (requests t + 3)%nat
  ∧ sleeps (after_retries t (search_request w its query) 3)
    = (sleeps t + 3)%nat.
Proof.
  intros Hc Hp Ht.
  rewrite GetProductsFromQuery_credentials by done. unfold bind.
  destruct (loop_exhausted w (search_request w its query) t)
    as (response' & err' & -> & Hlast).
  { intros j Hj. split; [by apply Hp|by apply Ht]. }
  split.
  - destruct (attempt w t (search_request w its query) 2) as [e|r].
    + destruct Hlast as [-> ->]. done.
    + destruct Hlast as (-> & -> & Hr). simpl.
      apply retry_status_true in Hr as [H200 H404].
      by rewrite bool_decide_eq_false_2, bool_decide_eq_true_2.
  - split; [|done]. unfold requests, after_retries. cbn [sent].
    by rewrite length_app, length_replicate.
Qed.

(** The call left by a 200 after [k] retried attempts. *)
Lemma executor_answered_200 (w : World)
    (its : ITScopeCommunicator) (query : string) (t : Trace) (k : nat)
    (r : http.Response) :
  has_credentials its →
  (k < 3)%nat →
  (∀ j, (j ≤ k)%nat → permit w t j = None) →
  (∀ j, (j < k)%nat →
     transient (attempt w t (search_request w its query) j) = true) →
  attempt w t (search_request w its query) k = DoResponse r →
  http.StatusCode r = http.StatusOK →
  GetProductsFromQuery w its query t
  = (Some match json_ProductsContainer w (http.Body r) with
          | inl e => (None, Some e)
          | inr products => (Some products, None)
          end,
     answered (after_retries t (search_request w its query) k)
       (search_request w its query)).
Proof.
  intros Hc Hk Hp Ht Ha H200.
  destruct (budget_split k Hk) as [n Hn].
  rewrite GetProductsFromQuery_credentials by done. unfold bind.
  rewrite Hn, (loop_answered _ _ k n None None t r);
    [|by apply has_credentials_all|apply Hp; lia|done
     |by apply retry_status_200].
  simpl.
  rewrite bool_decide_eq_false_2
    by (rewrite H200; unfold http.StatusOK, http.StatusNotFound; lia).
  rewrite bool_decide_eq_false_2 by tauto.
  by destruct (json_ProductsContainer w (http.Body r)).
Qed.

(** X4.  When, after attempts that were to be retried, an attempt is
    answered 200, the call ends there, without a further request or
    sleep: it returns the decoded container, or, if the body does not
    decode, the error of the decoder as it is. *)
Theorem GetProductsFromQuery_answered_200 (w : World)
    (its : ITScopeCommunicator) (query : string) (t : Trace) (k : nat)
    (r : http.Response) :
  has_credentials its →
  (k < 3)%nat →
  (∀ j, (j ≤ k)%nat → permit w t j = None) →
  (∀ j, (j < k)%nat →
     transient (attempt w t (search_request w its query) j) = true) →
  attempt w t (search_request w its query) k = DoResponse r →
  http.StatusCode r = http.StatusOK →
  GetProductsFromQuery w its query t
  = (Some match json_ProductsContainer w (http.Body r) with
          | inl e => (None, Some e)
          | inr products => (Some products, None)
          end,
     answered (after_retries t (search_request w its query) k)
       (search_request w its query)).
Proof. apply executor_answered_200. Qed.

(** ** The catalog of product types *)

Lemma GetAllProductTypes_credentials (w : World) (its : ITScopeCommunicator) :
  has_credentials its →
  GetAllProductTypes w its
  = bind (GetProductsFromQuery_loop w (producttypes_request its) 3 None None)
         (GetAllProductTypes_end w).
Proof.
  intros Hc. unfold GetAllProductTypes, producttypes_request.
  rewrite authenticateRequest_credentials by done. done.
Qed.

Lemma GetAllProductTypes_shape (w : World) (its : ITScopeCommunicator)
    (t : Trace) :
  ∃ result t' j,
    GetAllProductTypes w its t = (Some result, t')
    ∧ ((∃ productTypes, result = (productTypes, None))
       ∨ (∃ e, result = (None, Some e)))
    ∧ (j ≤ 3)%nat
    ∧ sent t' = sent t ++ replicate j (producttypes_request its)
    ∧ (waits t' = (waits t + j)%nat ∨ waits t' = (waits t + S j)%nat)
    ∧ (sleeps t ≤ sleeps t' ≤ sleeps t + j)%nat.
Proof.
  destruct (has_credentials_dec its) as [Hc|Hm].
  - rewrite GetAllProductTypes_credentials by done. unfold bind.
    destruct (loop_shape w (producttypes_request its) 3 None None t)
      as (exit & t' & j & -> & Hj & Hsent & Hwaits & Hsleeps & Hex).
    assert (∃ result,
              GetAllProductTypes_end w exit t' = (Some result, t')
              ∧ ((∃ productTypes, result = (productTypes, None))
                 ∨ (∃ e, result = (None, Some e)))) as (result & -> & Hres).
    { destruct exit as [e|[r|] [e|]]; simpl; eauto.
      - case_bool_decide; [eauto|]. case_bool_decide; [eauto|].
        destruct (json_ProductTypesContainer w (http.Body r)); eauto.
      - by destruct Hex as (_ & _ & ?). }
    by exists result, t', j.
  - rewrite GetAllProductTypes_missing by done.
    eexists _, t, 0%nat. split; [done|]. split; [eauto|].
    simpl. rewrite app_nil_r. split; [lia|]. split; [done|].
    split; [left|]; lia.
Qed.

(** X5.  [GetAllProductTypes] never panics and never returns a catalog
    together with an error: it returns a catalog and no error (the slice
    is as the decoder left it, nil if the body had no list of types), or
    the nil slice and an error.  It sends up to three copies of one
    request, each after a wait for a token, and sleeps at most once per
    request. *)
Theorem GetAllProductTypes_run_shape (w : World) (its : ITScopeCommunicator)
    (t : Trace) :
  ∃ result t' j,
    GetAllProductTypes w its t = (Some result, t')
    ∧ ((∃ productTypes, result = (productTypes, None))
       ∨ (∃ e, result = (None, Some e)))
    ∧ (j ≤ 3)%nat
    ∧ sent t' = sent t ++ replicate j (producttypes_request its)
    ∧ (waits t' = (waits t + j)%nat ∨ waits t' = (waits t + S j)%nat)
    ∧ (sleeps t ≤ sleeps t' ≤ sleeps t + j)%nat.
Proof. apply GetAllProductTypes_shape. Qed.

Lemma GetAllProductTypes_answer (w : World) (its : ITScopeCommunicator)
    (t : Trace) (k : nat) (r : http.Response) :
  has_credentials its →
  (k < 3)%nat →
  (∀ j, (j ≤ k)%nat → permit w t j = None) →
  (∀ j, (j < k)%nat →
     transient (attempt w t (producttypes_request its) j) = true) →
  attempt w t (producttypes_request its) k = DoResponse r →
  retry_status r = false →
  GetAllProductTypes w its t
  = GetAllProductTypes_end w (LoopEnd (Some r) None)
      (answered (after_retries t (producttypes_request its) k)
         (producttypes_request its)).
Proof.
  intros Hc Hk Hp Ht Ha Hr.
  destruct (budget_split k Hk) as [n Hn].
  rewrite GetAllProductTypes_credentials by done. unfold bind.
  rewrite Hn, (loop_answered _ _ k n None None t r);
    [done|by apply has_credentials_all|apply Hp; lia|done|done].
Qed.

(** X6.  When, after attempts that were to be retried, the request for the
    catalog is answered 404, the result is the empty catalog, a slice that
    is not nil, and no error; when it is answered 200, the result is the
    decoded slice of types as it is, nil if the body had none, or the error
    of the decoder wrapped in the context of the call.  Either way nothing
    is sent after the answer. *)
Theorem GetAllProductTypes_answered (w : World) (its : ITScopeCommunicator)
    (t : Trace) (k : nat) (r : http.Response) :
  has_credentials its →
  (k < 3)%nat →
  (∀ j, (j ≤ k)%nat → permit w t j = None) →
  (∀ j, (j < k)%nat →
     transient (attempt w t (producttypes_request its) j) = true) →
  attempt w t (producttypes_request its) k = DoResponse r →
  http.StatusCode r = http.StatusNotFound
  ∨ http.StatusCode r = http.StatusOK →
  GetAllProductTypes w its t
  = (Some (if bool_decide (http.StatusCode r = http.StatusNotFound)
           then (Some [], None)
           else match json_ProductTypesContainer w (http.Body r) with
                | inl e =>
                    (None,
                     Some (WrapError "could not retrieve product types" e))
                | inr productTypes => (ProductTypes productTypes, None)
                end),
     answered (after_retries t (producttypes_request its) k)
       (producttypes_request its)).
Proof.
  intros Hc Hk Hp Ht Ha Hstatus.
  rewrite (GetAllProductTypes_answer w its t k r) by
    first [done
          |destruct Hstatus;
           [by apply retry_status_404|by apply retry_status_200]].
  simpl. case_bool_decide as H404; [done|].
  destruct Hstatus as [?|H200]; [done|].
  rewrite bool_decide_eq_false_2 by tauto.
  by destruct (json_ProductTypesContainer w (http.Body r)).
Qed.

(** X7.  When all three requests for the catalog are to be retried, the
    call returns no catalog and an error made of the last attempt alone,
    after three requests and three sleeps. *)
Theorem GetAllProductTypes_exhausted (w : World) (its : ITScopeCommunicator)
    (t : Trace) :
  has_credentials its →
  (∀ j, (j < 3)%nat → permit w t j = None) →
  (∀ j, (j < 3)%nat →
     transient (attempt w t (producttypes_request its) j) = true) →
  GetAllProductTypes w its t
  = (Some (None,
           Some (exhausted_error "could not retrieve product types"
                   (attempt w t (producttypes_request its) 2))),
     after_retries t (producttypes_request its) 3)
  ∧ requests (after_retries t (producttypes_request its) 3)
    = (requests t + 3)%nat
  ∧ sleeps (after_retries t (producttypes_request its) 3)
    = (sleeps t + 3)%nat.
Proof.
  intros Hc Hp Ht.
  rewrite GetAllProductTypes_credentials by done. unfold bind.
  destruct (loop_exhausted w (producttypes_request its) t)
    as (response' & err' & -> & Hlast).
  { intros j Hj. split; [by apply Hp|by apply Ht]. }
  split.
  - destruct (attempt w t (producttypes_request its) 2) as [e|r].
    + destruct Hlast as [-> ->]. done.
    + destruct Hlast as (-> & -> & Hr). simpl.
      apply retry_status_true in Hr as [H200 H404].
      by rewrite bool_decide_eq_false_2, bool_decide_eq_true_2.
  - split; [|done]. unfold requests, after_retries. cbn [sent].
    by rewrite length_app, length_replicate.
Qed.

(** ** A single article *)

(** X8.  When the query for an article is answered 200 with a body that
    decodes, [GetProductData] returns the first product of the container,
    whatever follows it, and the nil product if there is none, without
    error and without a further request. *)
Theorem GetProductData_first_product (w : World) (its : ITScopeCommunicator)
    (productSKU : string) (t : Trace) (k : nat) (r : http.Response)
    (c : ProductsContainer) :
  has_credentials its →
  (k < 3)%nat →
  (∀ j, (j ≤ k)%nat → permit w t j = None) →
  (∀ j, (j < k)%nat →
     transient
       (attempt w t (search_request w its ("distpid=" +:+ productSKU)) j)
     = true) →
  attempt w t (search_request w its ("distpid=" +:+ productSKU)) k
  = DoResponse r →
  http.StatusCode r = http.StatusOK →
  json_ProductsContainer w (http.Body r) = inr c →
  GetProductData w its productSKU t
  = (Some (head (ProductsContainer_Product c), None),
     answered
       (after_retries t (search_request w its ("distpid=" +:+ productSKU)) k)
       (search_request w its ("distpid=" +:+ productSKU))).
Proof.
  intros Hc Hk Hp Ht Ha H200 Hjson.
  unfold GetProductData, bind.
  rewrite (executor_answered_200 w its _ t k r) by done.
  rewrite Hjson. simpl. by destruct (ProductsContainer_Product c).
Qed.

(** X9.  [GetProductData] never panics and never returns a product
    together with an error; an error is the error of the query wrapped in
    the context of the call, so that missing credentials stay
    recognisable; and no more than three requests are sent. *)
Theorem GetProductData_errors (w : World) (its : ITScopeCommunicator)
    (productSKU : string) (t : Trace) :
  ∃ product err t',
    GetProductData w its productSKU t = (Some (product, err), t')
    ∧ (requests t ≤ requests t' ≤ requests t + 3)%nat
    ∧ ∀ e, err = Some e →
        product = None
        ∧ ∃ e0,
            e = WrapError "could not retrieve product data" e0
            ∧ error_root e = error_root e0
            ∧ GetProductsFromQuery w its ("distpid=" +:+ productSKU) t
              = (Some (None, Some e0), t').
Proof.
  pose proof (GetProductsFromQuery_requests w its
                ("distpid=" +:+ productSKU) t) as Hreq.
  unfold GetProductData, bind.
  destruct (GetProductsFromQuery_total w its ("distpid=" +:+ productSKU) t)
    as (t' & [[c Hrun]|[e Hrun]]); rewrite Hrun in *; simpl in *.
  - destruct (ProductsContainer_Product c) as [|p ps].
    + exists None, None, t'. split; [done|]. split; [done|]. done.
    + exists (Some p), None, t'. split; [done|]. split; [done|]. done.
  - eexists None, _, t'. split; [done|]. split; [done|].
    intros e' [= <-]. split; [done|]. by exists e.
Qed.

(** ** The sequential aggregator *)

Lemma queried_requests (w : World) (its : ITScopeCommunicator)
    (queries : list string) (t t' : Trace) (cs : list ProductsContainer)
    (oe : option error) :
  queried w its queries t cs oe t' →
  (requests t ≤ requests t' ≤ requests t + 3 * length queries)%nat.
Proof.
  induction 1 as [t|query queries t c t1 cs oe t2 Hrun _ IH
                 |query queries t r e t1 Hrun].
  - simpl. lia.
  - pose proof (GetProductsFromQuery_requests w its query t) as Hreq.
    rewrite Hrun in Hreq. simpl in *. lia.
  - pose proof (GetProductsFromQuery_requests w its query t) as Hreq.
    rewrite Hrun in Hreq. simpl in *. lia.
Qed.

Lemma createQueryStrings_fifty_length (products queries : list string) :
  len products ≤ max_int →
  createQueryStrings products 50 = Some queries →
  length queries = Z.to_nat (ceil_div (len products) 50).
Proof.
  intros Hn. rewrite createQueryStrings_groups.
  rewrite queryGroups_chunks by (unfold max_int in *; lia).
  intros [= <-]. by rewrite length_fmap, chunks_down_length.
Qed.

(** X10.  The sequential aggregator queries the groups in the order of the
    batcher and stops at the first error: it then returns that error with
    the nil slice, whatever the groups before it were answered with, and
    the groups after it are never queried.  Without an error it returns the
    records of all groups, concatenated in the order of the groups. *)
Theorem GetProductAccessoriesFromList_sequential (w : World)
    (its : ITScopeCommunicator) (products : list string) (t : Trace) :
  len products ≤ max_int →
  ∃ queryStrings cs oe t',
    createQueryStrings products 50 = Some queryStrings
    ∧ queried w its queryStrings t cs oe t'
    ∧ match oe with
      | Some e =>
          GetProductAccessoriesFromList w its products t
          = (Some (None, Some e), t')
      | None =>
          length cs = length queryStrings
          ∧ ∃ result,
              GetProductAccessoriesFromList w its products t
              = (Some (result, None), t')
              ∧ elems result = concat (ProductsContainer_Product <$> cs)
      end.
Proof. apply GetProductAccessoriesFromList_first_error. Qed.

Lemma GetProductAccessoriesFromList_result (w : World)
    (its : ITScopeCommunicator) (products : list string) (t : Trace) :
  len products ≤ max_int →
  ∃ result err t',
    GetProductAccessoriesFromList w its products t
    = (Some (result, err), t')
    ∧ (is_Some err → result = None)
    ∧ (err = None → products ≠ [] → is_Some result)
    ∧ (requests t ≤ requests t'
       ≤ requests t + 3 * Z.to_nat (ceil_div (len products) 50))%nat.
Proof.
  intros Hn.
  destruct (createQueryStrings_fifty products Hn) as [qs Hqs].
  pose proof (createQueryStrings_fifty_length _ _ Hn Hqs) as Hlen.
  unfold GetProductAccessoriesFromList. case_bool_decide as Hempty.
  - exists None, None, t. split; [done|]. split; [done|].
    split; [|lia]. intros _ Hne. destruct products; [done|].
    unfold len in Hempty. simpl in Hempty. lia.
  - rewrite Hqs. cbv beta iota delta [bind lift ret].
    destruct (GetProductAccessoriesFromList_range_queried w its qs [] t)
      as (cs & oe & t' & Hq & -> & _).
    apply queried_requests in Hq. rewrite Hlen in Hq.
    destruct oe as [e|].
    + exists None, (Some e), t'. split; [done|]. split; [done|].
      split; [done|lia].
    + eexists (Some _), None, t'. split; [done|].
      split; [by intros [? ?]|]. split; [eauto|lia].
Qed.

(** X11.  The sequential aggregator never panics and never returns records
    together with an error; for a list that is not empty it returns a slice
    that is not nil when there is no error; and it sends at most three
    requests per group, [3 * ceil(n/50)] in all. *)
Theorem GetProductAccessoriesFromList_bounded (w : World)
    (its : ITScopeCommunicator) (products : list string) (t : Trace) :
  len products ≤ max_int →
  ∃ result err t',
    GetProductAccessoriesFromList w its products t
    = (Some (result, err), t')
    ∧ (is_Some err → result = None)
    ∧ (err = None → products ≠ [] → is_Some result)
    ∧ (requests t ≤ requests t'
       ≤ requests t + 3 * Z.to_nat (ceil_div (len products) 50))%nat.
Proof. apply GetProductAccessoriesFromList_result. Qed.

Section AlwaysUp.
Context (w : World) (its : ITScopeCommunicator).
Context (c : nat → ProductsContainer).
Context (Hcredentials : has_credentials its).
Context (Hlimiter : ∀ i, limiter_Wait w i = None).
Context (Hup : ∀ i request,
           ∃ r, client_Do w i request = DoResponse r
                ∧ http.StatusCode r = http.StatusOK
                ∧ json_ProductsContainer w (http.Body r) = inr (c i)).

Lemma GetProductsFromQuery_up (query : string) (t : Trace) :
  GetProductsFromQuery w its query t
  = (Some (Some (c (requests t)), None),
     answered t (search_request w its query)).
Proof.
  destruct (Hup (requests t) (search_request w its query))
    as (r & Hr & H200 & Hjson).
  rewrite (executor_answered_200 w its query t 0 r);
    [|done|lia|intros; apply Hlimiter|intros; lia| |done].
  - by rewrite Hjson, after_retries_0.
  - unfold attempt. by rewrite Nat.add_0_r.
Qed.

Lemma GetProductAccessoriesFromList_range_up (queries : list string)
    (productList : list Product) (t : Trace) :
  ∃ t',
    GetProductAccessoriesFromList_range w its queries productList t
    = (Some (Some (productList
                   ++ concat ((λ i, ProductsContainer_Product (c i))
                              <$> seq (requests t) (length queries))),
             None), t')
    ∧ requests t' = (requests t + length queries)%nat
    ∧ sleeps t' = sleeps t.
Proof.
  revert productList t.
  induction queries as [|query queries IH]; intros productList t.
  - exists t. simpl. rewrite app_nil_r. split; [done|]. lia.
  - cbn [GetProductAccessoriesFromList_range]. unfold bind at 1.
    rewrite GetProductsFromQuery_up. simpl. unfold bind at 1. simpl.
    destruct (IH (productList ++ ProductsContainer_Product (c (requests t)))
                (answered t (search_request w its query)))
      as (t' & -> & Hreq & Hsl).
    exists t'. rewrite requests_answered in *. simpl in Hsl.
    split; [by rewrite <- app_assoc|]. split; [lia|done].
Qed.

End AlwaysUp.

(** X12.  When the limiter always grants a token and every request is
    answered 200 with a body that decodes, the sequential aggregator sends
    exactly one request per group, [ceil(n/50)] in all, never sleeps, and
    returns the records of the answers in the order in which the requests
    were sent. *)
Theorem GetProductAccessoriesFromList_all_up (w : World)
    (its : ITScopeCommunicator) (c : nat → ProductsContainer)
    (products : list string) (t : Trace) :
  has_credentials its →
  (∀ i, limiter_Wait w i = None) →
  (∀ i request,
     ∃ r, client_Do w i request = DoResponse r
          ∧ http.StatusCode r = http.StatusOK
          ∧ json_ProductsContainer w (http.Body r) = inr (c i)) →
  len products ≤ max_int →
  ∃ result t',
    GetProductAccessoriesFromList w its products t
    = (Some (result, None), t')
    ∧ elems result
      = concat ((λ i, ProductsContainer_Product (c i))
                <$> seq (requests t)
                      (Z.to_nat (ceil_div (len products) 50)))
    ∧ requests t' = (requests t + Z.to_nat (ceil_div (len products) 50))%nat
    ∧ sleeps t' = sleeps t.
Proof.
  intros Hc Hl Hup Hn.
  destruct (createQueryStrings_fifty products Hn) as [qs Hqs].
  pose proof (createQueryStrings_fifty_length _ _ Hn Hqs) as Hlen.
  unfold GetProductAccessoriesFromList. case_bool_decide as Hempty.
  - exists None, t. rewrite Hempty.
    change (Z.to_nat (ceil_div 0 50)) with 0%nat. simpl.
    split; [done|]. split; [done|]. split; [lia|done].
  - rewrite Hqs. cbv beta iota delta [bind lift ret].
    destruct (GetProductAccessoriesFromList_range_up w its c Hc Hl Hup
                qs [] t) as (t' & -> & Hreq & Hsl).
    rewrite Hlen in *. eexists _, t'. split; [done|]. done.
Qed.

(** ** The product assembler *)

Lemma GetProductAccessories_nil (w : World) (its : ITScopeCommunicator)
    (t : Trace) :
  GetProductAccessories w its None t = (None, t).
Proof. reflexivity. Qed.

Lemma GetProductAccessories_shape (w : World) (its : ITScopeCommunicator)
    (product : Product) (t : Trace) :
  len (Accessories product) ≤ max_int →
  ∃ result err t',
    GetProductAccessories w its (Some product) t = (Some (result, err), t')
    ∧ (Accessories product = [] → result = None ∧ err = None ∧ t' = t)
    ∧ (∀ e, err = Some e →
         result = None
         ∧ ∃ e0,
             e = WrapError "GetProductAccessories" e0
             ∧ GetProductAccessoriesFromList w its
                 (ReferencedProductID <$> Accessories product) t
               = (Some (None, Some e0), t'))
    ∧ (err = None →
       GetProductAccessoriesFromList w its
         (ReferencedProductID <$> Accessories product) t
       = (Some (result, None), t'))
    ∧ (requests t ≤ requests t'
       ≤ requests t
         + 3 * Z.to_nat (ceil_div (len (Accessories product)) 50))%nat.
Proof.
  intros Hn.
  assert (len (ReferencedProductID <$> Accessories product)
          = len (Accessories product)) as Hlen
    by (unfold len; by rewrite length_fmap).
  destruct (GetProductAccessoriesFromList_result w its
              (ReferencedProductID <$> Accessories product) t)
    as (result & err & t' & Hrun & Herr & _ & Hreq); [by rewrite Hlen|].
  rewrite Hlen in Hreq.
  unfold GetProductAccessories. cbv beta iota delta [bind lift ret].
  rewrite Hrun.
  destruct err as [e0|].
  - rewrite (Herr ltac:(eauto)) in *.
    eexists None, _, t'. split; [done|]. split.
    { intros Hnil. rewrite Hnil in Hrun. cbv in Hrun. by simplify_eq. }
    split; [|done]. intros e [= <-]. split; [done|]. by exists e0.
  - exists result, None, t'. split; [done|]. split.
    { intros Hnil. rewrite Hnil in Hrun. cbv in Hrun. by simplify_eq. }
    split; [done|]. done.
Qed.

(** X13.  [GetProductAccessories] panics on the nil product, before
    anything is sent, and on no other.  For a product without accessories
    it returns the nil slice and no error without any request, whatever
    the credentials; an error is the error of the aggregator wrapped in the
    context of the call, with the nil slice; and otherwise the result is
    that of the aggregator for the referenced identifiers in their
    order. *)
Theorem GetProductAccessories_result (w : World) (its : ITScopeCommunicator)
    (product : Product) (t : Trace) :
  len (Accessories product) ≤ max_int →
  GetProductAccessories w its None t = (None, t)
  ∧ ∃ result err t',
      GetProductAccessories w its (Some product) t
      = (Some (result, err), t')
      ∧ (Accessories product = [] → result = None ∧ err = None ∧ t' = t)
      ∧ (∀ e, err = Some e →
           result = None
           ∧ ∃ e0,
               e = WrapError "GetProductAccessories" e0
               ∧ GetProductAccessoriesFromList w its
                   (ReferencedProductID <$> Accessories product) t
                 = (Some (None, Some e0), t'))
      ∧ (err = None →
         GetProductAccessoriesFromList w its
           (ReferencedProductID <$> Accessories product) t
         = (Some (result, None), t'))
      ∧ (requests t ≤ requests t'
         ≤ requests t
           + 3 * Z.to_nat (ceil_div (len (Accessories product)) 50))%nat.
Proof.
  intros Hn. split; [apply GetProductAccessories_nil|].
  by apply GetProductAccessories_shape.
Qed.

(** X14.  [GetServiceTypeAccessoriesOfProduct] fetches the catalog first.
    When that fails, its error is the one returned, wrapped in the context
    of the call, the accessories are never asked for and the product is
    never read.  When the catalog is fetched and the product is nil, the
    call panics, after the requests for the catalog.  For a product that is
    not nil the call never panics and returns either a slice that is not
    nil or an error wrapped in the context of the call, never both and
    never neither. *)
Theorem GetServiceTypeAccessoriesOfProduct_errors (w : World)
    (its : ITScopeCommunicator) (product : option Product) (t : Trace) :
  (∀ p, product = Some p → len (Accessories p) ≤ max_int) →
  ∃ outcome t',
    GetServiceTypeAccessoriesOfProduct w its product t = (outcome, t')
    ∧ (∀ r e t1,
         GetAllProductTypes w its t = (Some (r, Some e), t1) →
         outcome
         = Some (None, Some (WrapError "GetServiceTypeAccessoriesOfProduct" e))
         ∧ t' = t1)
    ∧ (∀ catalog t1,
         GetAllProductTypes w its t = (Some (catalog, None), t1) →
         product = None → outcome = None ∧ t' = t1)
    ∧ (is_Some product →
       ∃ result err,
         outcome = Some (result, err)
         ∧ ((∃ out, result = Some out ∧ err = None)
            ∨ (result = None
               ∧ ∃ e, err = Some e
                      ∧ wrapped_in "GetServiceTypeAccessoriesOfProduct" e))).
Proof.
  intros Hn. unfold GetServiceTypeAccessoriesOfProduct, bind.
  destruct (GetAllProductTypes_shape w its t)
    as (res & t1 & j & -> & [[productTypes ->]|[e ->]] & _);
    cbv beta iota.
  - destruct product as [p|].
    + destruct (GetProductAccessories_shape w its p t1 (Hn p eq_refl))
        as (accessories & err & t2 & -> & _ & Herr & _).
      destruct err as [e|]; cbv beta iota.
      * eexists _, t2. split; [done|]. split; [done|]. split; [done|].
        intros _. eexists None, _. split; [done|].
        right. split; [done|]. eexists. split; [done|]. by eexists.
      * eexists _, t2. split; [done|]. split; [done|]. split; [done|].
        intros _. eexists (Some _), None. split; [done|].
        left. by eexists.
    + rewrite GetProductAccessories_nil.
      exists None, t1. split; [done|]. split; [done|].
      split; [by intros ? ? [= <- <-]|]. by intros [? ?].
  - eexists _, t1. split; [done|].
    split; [by intros r e' t1' [= <- <- <-]|]. split; [done|].
    intros _. eexists None, _. split; [done|].
    right. split; [done|]. eexists. split; [done|]. by eexists.
Qed.

Lemma assignments_no_products (typeList : list ProductType) :
  assignments [] typeList = [].
Proof.
  unfold assignments. induction typeList as [|ty typeList IH]; [done|].
  cbn [mbind list_bind]. simpl. by rewrite IH.
Qed.

Lemma FilterProductsByTypeList_no_products (w : World)
    (typeList : list ProductType) :
  range_order_ok w → FilterProductsByTypeList w [] typeList = [].
Proof.
  intros Horder. unfold FilterProductsByTypeList.
  rewrite filteredProducts_of_assignments, assignments_no_products.
  simpl. pose proof (Horder ∅) as Hperm. rewrite map_to_list_empty in Hperm.
  apply Permutation_nil_r in Hperm. by rewrite Hperm.
Qed.

(** X15.  For a product without accessories, once the catalog is fetched
    the call returns the empty slice, which is not nil, and no error, and
    sends nothing beyond the requests for the catalog. *)
Theorem GetServiceTypeAccessoriesOfProduct_no_accessories (w : World)
    (its : ITScopeCommunicator) (product : Product) (t t1 : Trace)
    (catalog : option (list ProductType)) :
  range_order_ok w →
  Accessories product = [] →
  GetAllProductTypes w its t = (Some (catalog, None), t1) →
  GetServiceTypeAccessoriesOfProduct w its (Some product) t
  = (Some (Some [], None), t1).
Proof.
  intros Horder Hnil Htypes.
  unfold GetServiceTypeAccessoriesOfProduct, bind. rewrite Htypes. simpl.
  unfold GetProductAccessories. cbv beta iota delta [bind lift ret].
  rewrite Hnil. simpl.
  by rewrite FilterProductsByTypeList_no_products.
Qed.

(** X16.  Without credentials [GetServiceTypeAccessoriesOfProduct] fails
    with the missing-credentials error before anything is sent, also for a
    product without accessories, and for the nil product, which is never
    read. *)
Theorem GetServiceTypeAccessoriesOfProduct_missing_credentials (w : World)
    (its : ITScopeCommunicator) (product : option Product) (t : Trace) :
  username its = "" ∨ password its = "" →
  ∃ e,
    GetServiceTypeAccessoriesOfProduct w its product t
    = (Some (None, Some e), t)
    ∧ missing_credentials e
    ∧ wrapped_in "GetServiceTypeAccessoriesOfProduct" e.
Proof.
  intros Hm. unfold GetServiceTypeAccessoriesOfProduct, bind.
  rewrite GetAllProductTypes_missing by done. simpl.
  eexists. split; [done|]. split; [done|]. by eexists.
Qed.

(** ** The filters *)

(** X17.  [FilterProductTypesByGroupId] and [FilterProductTypesById]
    return exactly the types with the given group or identifier, each as
    often as it is given and in the order of the input: the result is the
    input with the other types left out.  So filtering twice changes
    nothing, and the two filters commute. *)
Theorem FilterProductTypes_keep (groupId id : string)
    (productTypes : list ProductType) :
  FilterProductTypesByGroupId groupId productTypes
  = filter (λ productType, group_of productType = groupId) productTypes
  ∧ FilterProductTypesById id productTypes
    = filter (λ productType, ProductType_ID productType = id) productTypes
  ∧ (∀ productType,
       productType ∈ FilterProductTypesByGroupId groupId productTypes
       ↔ productType ∈ productTypes ∧ group_of productType = groupId)
  ∧ (∀ productType,
       productType ∈ FilterProductTypesById id productTypes
       ↔ productType ∈ productTypes ∧ ProductType_ID productType = id)
  ∧ FilterProductTypesByGroupId groupId productTypes
    `sublist_of` productTypes
  ∧ FilterProductTypesById id productTypes `sublist_of` productTypes
  ∧ FilterProductTypesByGroupId groupId
      (FilterProductTypesByGroupId groupId productTypes)
    = FilterProductTypesByGroupId groupId productTypes
  ∧ FilterProductTypesById id (FilterProductTypesById id productTypes)
    = FilterProductTypesById id productTypes
  ∧ FilterProductTypesById id
      (FilterProductTypesByGroupId groupId productTypes)
    = FilterProductTypesByGroupId groupId
        (FilterProductTypesById id productTypes).
Proof.
  rewrite !FilterProductTypesByGroupId_filter, !FilterProductTypesById_filter.
  split; [done|]. split; [done|].
  split; [intros ty; rewrite list_elem_of_filter; unfold group_of; tauto|].
  split; [intros ty; rewrite list_elem_of_filter; tauto|].
  split; [apply sublist_filter|]. split; [apply sublist_filter|].
  rewrite !list_filter_filter.
  split; [apply list_filter_iff; tauto|].
  split; [apply list_filter_iff; tauto|].
  apply list_filter_iff; tauto.
Qed.






(** X20.  [GetProductImages] returns the image fields of the product that
    are not empty, in the order of the fields: no empty address, and five
    addresses at most. *)
Theorem GetProductImages_fields (product : Product) :
  GetProductImages product = filter (λ url, url ≠ "") (image_fields product)
  ∧ (∀ url, url ∈ GetProductImages product → url ≠ "")
  ∧ (length (GetProductImages product) ≤ 5)%nat.
Proof.
  assert (GetProductImages product
          = filter (λ url, url ≠ "") (image_fields product)) as Heq.
  { unfold GetProductImages, image_fields.
    rewrite !filter_cons, filter_nil.
    repeat case_bool_decide; repeat case_decide; done. }
  split; [done|]. rewrite Heq. split.
  - intros url Hurl. by apply list_elem_of_filter in Hurl as [? _].
  - etrans; [apply length_filter|]. done.
Qed.

(** ** Status-code errors and the requests on the wire *)

Lemma loop_return_wrapped (w : World) (request : http.Request)
    (retries : nat) (response : option http.Response) (err : option error)
    (t t' : Trace) (e : error) :
  GetProductsFromQuery_loop w request retries response err t
  = (Some (LoopReturn e), t') →
  ∃ e0, e = WrapError "limiter timeout" e0.
Proof.
  revert response err t. induction retries as [|n IH]; intros response err t.
  - by intros [= ?].
  - destruct (permit w t 0) as [e0|] eqn:Hw.
    { rewrite (loop_limiter _ _ _ _ _ _ e0) by done. intros [= <- _]. eauto. }
    destruct (transient (attempt w t request 0)) eqn:Ht.
    + rewrite loop_retry by done.
      destruct (attempt w t request 0); apply IH.
    + destruct (attempt w t request 0) as [?|r] eqn:Ha; [done|].
      simpl in Ht. by erewrite loop_break by done.
Qed.

(** X21.  A status-code error that [GetProductsFromQuery] returns never
    carries the code 404 or 200, as long as the decoder makes no such
    errors of its own: a 404 is the empty container.  So [ErrNotFound]
    never matches an error of this call. *)
Theorem GetProductsFromQuery_never_not_found (w : World)
    (its : ITScopeCommunicator) (query : string) (t t' : Trace)
    (result : option ProductsContainer) (u : UnexpectedStatusCodeError) :
  (∀ body e, json_ProductsContainer w body = inl e →
             ∀ u', e ≠ StatusCodeError u') →
  GetProductsFromQuery w its query t
  = (Some (result, Some (StatusCodeError u)), t') →
  StatusCode u ≠ http.StatusNotFound
  ∧ StatusCode u ≠ http.StatusOK
  ∧ UnexpectedStatusCodeError_Is ErrNotFound (PointerTarget u) = false.
Proof.
  intros Hjson Hrun.
  assert (StatusCode u ≠ http.StatusNotFound ∧ StatusCode u ≠ http.StatusOK)
    as [H404 H200].
  { destruct (has_credentials_dec its) as [Hc|Hm].
    - rewrite GetProductsFromQuery_credentials in Hrun by done.
      unfold bind in Hrun.
      destruct (GetProductsFromQuery_loop w _ 3 None None t)
        as [[exit|] t1] eqn:Hloop; [|done].
      destruct exit as [e|[r|] [e|]]; simpl in Hrun; try done.
      + apply loop_return_wrapped in Hloop as [e0 ->].
        unfold ret in Hrun. by simplify_eq.
      + case_bool_decide; [done|]. case_bool_decide.
        * clear Hloop. unfold ret in Hrun. simplify_eq. by split.
        * destruct (json_ProductsContainer w (http.Body r)) as [e|c] eqn:Hd;
            [|done].
          unfold ret in Hrun. simplify_eq. by destruct (Hjson _ _ Hd u).
    - by rewrite GetProductsFromQuery_missing in Hrun. }
  split; [done|]. split; [done|]. simpl.
  apply bool_decide_eq_false_2. simpl. congruence.
Qed.

Lemma canonical_header_keys :
  http.CanonicalHeaderKey "Authorization" = "Authorization"
  ∧ http.CanonicalHeaderKey "Accept" = "Accept"
  ∧ http.CanonicalHeaderKey "UserAgent" = "Useragent"
  ∧ http.CanonicalHeaderKey "Accept-Language" = "Accept-Language".
Proof. repeat split; vm_compute; reflexivity. Qed.

(** X22.  A client made by [New] with a user name and a password, its
    language set by [SetLanguage], sends for a query up to three copies of
    one GET request: the search address around the escaped query, and a
    header with one value under each of four keys: [Authorization] (the
    word [Basic] and the base64 encoding of user name, colon and
    password), [Accept], [Useragent] (the canonical form of the key
    [UserAgent] the code adds, so that no [User-Agent] is set; the value is
    the company name followed by [-ITS_ApiModule-0.1]) and
    [Accept-Language] (the language set last). *)
Theorem new_client_requests (w : World)
    (companyName userName passwd : string) (lang lang' : Language)
    (query : string) (t : Trace) :
  userName ≠ "" → passwd ≠ "" →
  ∃ result t' j request,
    GetProductsFromQuery w
      (SetLanguage (New companyName userName passwd lang) lang')
      query t
    = (Some result, t')
    ∧ (j ≤ 3)%nat
    ∧ sent t' = sent t ++ replicate j request
    ∧ request
      = {| http.Method := "GET";
           http.URL :=
             "https://api.itscope.com/2.0/products/search/"
             +:+ QueryEscape w query
             +:+ "/standard.json?realtime=false&plzproducts=false&page=1&item=0&sort=DEFAULT";
           http.Header :=
             <["Accept-Language" := [lang']]>
               (<["Useragent" := [companyName +:+ "-ITS_ApiModule-0.1"]]>
                  (<["Accept" := ["application/json"]]>
                     (<["Authorization" :=
                          ["Basic "
                           +:+ http.base64_EncodeToString
                                 (userName +:+ ":" +:+ passwd)]]> ∅))) |}
    ∧ http.Header request !! "UserAgent" = None
    ∧ http.Header request !! "User-Agent" = None.
Proof.
  intros Hu Hp.
  destruct (GetProductsFromQuery_shape w
              (SetLanguage (New companyName userName passwd lang) lang')
              query t)
    as (result & t' & j & Hrun & _ & Hj & Hsent & _).
  assert (search_request w
            (SetLanguage (New companyName userName passwd lang) lang') query
          = {| http.Method := "GET";
               http.URL :=
                 "https://api.itscope.com/2.0/products/search/"
                 +:+ QueryEscape w query
                 +:+ "/standard.json?realtime=false&plzproducts=false&page=1&item=0&sort=DEFAULT";
               http.Header :=
                 <["Accept-Language" := [lang']]>
                   (<["Useragent" := [companyName +:+ "-ITS_ApiModule-0.1"]]>
                      (<["Accept" := ["application/json"]]>
                         (<["Authorization" :=
                              ["Basic "
                               +:+ http.base64_EncodeToString
                                     (userName +:+ ":" +:+ passwd)]]> ∅))) |})
    as Hreq.
  { destruct canonical_header_keys as (Hau & Ha & Hua & Hal).
    unfold search_request, authenticateRequest.
    cbn [username password userAgent language CompanyName SetLanguage New].
    rewrite bool_decide_eq_false_2 by (intros [?|?]; done).
    unfold http.Header_Add, http.SetBasicAuth, http.Header_Set,
      http.basicAuth, http.NewRequest, search_url.
    cbn [snd http.Method http.URL http.Header].
    rewrite Hau, Ha, Hua, Hal.
    rewrite (lookup_insert_ne _ "Authorization" "Accept") by discriminate.
    rewrite lookup_empty.
    rewrite (lookup_insert_ne _ "Accept" "Useragent") by discriminate.
    rewrite (lookup_insert_ne _ "Authorization" "Useragent") by discriminate.
    rewrite lookup_empty.
    rewrite (lookup_insert_ne _ "Useragent" "Accept-Language")
      by discriminate.
    rewrite (lookup_insert_ne _ "Accept" "Accept-Language") by discriminate.
    rewrite (lookup_insert_ne _ "Authorization" "Accept-Language")
      by discriminate.
    rewrite lookup_empty. done. }
  exists result, t', j, (search_request w
            (SetLanguage (New companyName userName passwd lang) lang') query).
  split; [done|]. split; [done|]. split; [done|]. split; [done|].
  rewrite Hreq. cbn [http.Header].
  rewrite !lookup_insert_ne by discriminate. by rewrite lookup_empty.
Qed.

(** ** The executor of itscope.go *)

(** X23.  [GetProductsFromQuery] of itscope.go never panics and returns
    either a container or an error; it never waits for a token and never
    sleeps; with credentials it sends exactly one request, whatever the
    answer, and without them none.  A transport error comes back wrapped
    as a product query error, and a status other than 200 and 404 as an
    error made of the status text, not as a status-code error. *)
Theorem Errgroup_GetProductsFromQuery_single_attempt (w : World)
    (its : ITScopeCommunicator) (query : string) (t : Trace) :
  ∃ result t',
    Errgroup.GetProductsFromQuery w its query t = (Some result, t')
    ∧ ((∃ c, result = (Some c, None)) ∨ (∃ e, result = (None, Some e)))
    ∧ waits t' = waits t
    ∧ sleeps t' = sleeps t
    ∧ (username its = "" ∨ password its = "" →
       t' = t ∧ ∃ e, result = (None, Some e) ∧ missing_credentials e)
    ∧ (has_credentials its →
       sent t' = sent t ++ [search_request w its query]
       ∧ (∀ e, attempt w t (search_request w its query) 0 = DoError e →
               result = (None, Some (WrapError "product query" e)))
       ∧ (∀ r, attempt w t (search_request w its query) 0 = DoResponse r →
               retry_status r = true →
               result = (None, Some (ErrorFormat (http.Status r))))).
Proof.
  unfold Errgroup.GetProductsFromQuery.
  destruct (has_credentials_dec its) as [Hc|Hm].
  - rewrite authenticateRequest_credentials by done.
    fold (search_request w its query). unfold bind, Do, attempt.
    rewrite Nat.add_0_r.
    destruct (client_Do w (length (sent t)) (search_request w its query))
      as [e|r] eqn:Hdo.
    + eexists _, _. split; [done|]. split; [eauto|]. simpl.
      split; [done|]. split; [done|].
      split; [by intros [?|?]; destruct Hc|]. intros _.
      split; [done|]. split; [by intros ? [= ->]|done].
    + assert (∃ result,
                (if bool_decide (http.StatusCode r = http.StatusNotFound)
                 then ret (Some empty_container, None)
                 else if bool_decide (http.StatusCode r ≠ http.StatusOK)
                      then ret (None, Some (ErrorFormat (http.Status r)))
                      else match json_ProductsContainer w (http.Body r) with
                           | inl e => ret (None, Some e)
                           | inr products => ret (Some products, None)
                           end)
                  {| sent := sent t ++ [search_request w its query];
                     waits := waits t; sleeps := sleeps t |}
                = (Some result,
                   {| sent := sent t ++ [search_request w its query];
                      waits := waits t; sleeps := sleeps t |})
                ∧ ((∃ c, result = (Some c, None))
                   ∨ (∃ e, result = (None, Some e)))
                ∧ (retry_status r = true →
                   result = (None, Some (ErrorFormat (http.Status r)))))
        as (result & -> & Hres & Hstatus).
      { unfold retry_status. case_bool_decide as H404.
        - eexists. split; [done|]. split; [eauto|].
          rewrite (bool_decide_eq_false_2 (_ ≠ http.StatusNotFound))
            by tauto.
          by rewrite andb_false_r.
        - case_bool_decide as H200.
          + eexists. split; [done|]. split; [eauto|]. done.
          + destruct (json_ProductsContainer w (http.Body r));
              (eexists; split; [done|]; split; [eauto|]; done). }
      eexists _, _. split; [done|]. split; [done|]. simpl.
      split; [done|]. split; [done|].
      split; [by intros [?|?]; destruct Hc|]. intros _.
      split; [done|]. split; [done|]. by intros ? [= <-].
  - rewrite authenticateRequest_missing by done.
    eexists _, t. split; [done|]. split; [eauto|].
    split; [done|]. split; [done|]. split.
    + intros _. split; [done|]. by eexists.
    + intros [Hu Hp]. destruct Hm; done.
Qed.

(** ** Further runs against the sample servers *)

Lemma GetProductsFromQuery_limiter_timeout_witness :
  (GetProductsFromQuery
     (with_limiter (sample_world always_500) (deadline_after 1))
     sample_client "id=1" start).1
  = Some (None,
          Some (WrapError "limiter timeout"
                  (ErrorString "context deadline exceeded"))).
Proof.
  destruct (GetProductsFromQuery_limiter_timeout
              (with_limiter (sample_world always_500) (deadline_after 1))
              sample_client "id=1" start 1
              (ErrorString "context deadline exceeded")) as [Hrun _].
  - split; discriminate.
  - lia.
  - intros j Hj. assert (j = 0%nat) as -> by lia. reflexivity.
  - intros j Hj. reflexivity.
  - reflexivity.
  - rewrite Hrun. reflexivity.
Defined.

Lemma GetProductsFromQuery_exhausted_witness :
  (GetProductsFromQuery (sample_world always_refused) sample_client "id=1"
     start).1
  = Some (None,
          Some (WrapError "GetProductsFromQuery"
                  (ErrorString "connection refused"))).
Proof.
  destruct (GetProductsFromQuery_exhausted (sample_world always_refused)
              sample_client "id=1" start) as [Hrun _].
  - split; discriminate.
  - intros j Hj. reflexivity.
  - intros j Hj. reflexivity.
  - rewrite Hrun. reflexivity.
Defined.

Lemma GetProductsFromQuery_answered_200_witness :
  (GetProductsFromQuery (sample_world always_garbled) sample_client "id=1"
     start).1
  = Some (None, Some (ErrorString "unexpected end of JSON input")).
Proof.
  rewrite (GetProductsFromQuery_answered_200 (sample_world always_garbled)
             sample_client "id=1" start 0
             {| http.Status := "200 OK"; http.StatusCode := 200;
                http.Body := "{" |}).
  - reflexivity.
  - split; discriminate.
  - lia.
  - intros j Hj. reflexivity.
  - intros j Hj. lia.
  - reflexivity.
  - reflexivity.
Defined.

Lemma GetAllProductTypes_answered_witness :
  (GetAllProductTypes (sample_world always_404) sample_client start).1
  = Some (Some [], None)
  ∧ (GetAllProductTypes (sample_world always_empty_object) sample_client
       start).1
    = Some (None, None).
Proof.
  split.
  - rewrite (GetAllProductTypes_answered (sample_world always_404)
               sample_client start 0
               {| http.Status := "404 Not Found"; http.StatusCode := 404;
                  http.Body := "" |}).
    + reflexivity.
    + split; discriminate.
    + lia.
    + intros j Hj. reflexivity.
    + intros j Hj. lia.
    + reflexivity.
    + left. reflexivity.
  - rewrite (GetAllProductTypes_answered (sample_world always_empty_object)
               sample_client start 0
               {| http.Status := "200 OK"; http.StatusCode := 200;
                  http.Body := "{}" |}).
    + reflexivity.
    + split; discriminate.
    + lia.
    + intros j Hj. reflexivity.
    + intros j Hj. lia.
    + reflexivity.
    + right. reflexivity.
Defined.

Lemma GetAllProductTypes_exhausted_witness :
  (GetAllProductTypes (sample_world always_500) sample_client start).1
  = Some (None,
          Some (StatusCodeError
                  {| Message := "500 Internal Server Error";
                     StatusCode := 500 |})).
Proof.
  destruct (GetAllProductTypes_exhausted (sample_world always_500)
              sample_client start) as [Hrun _].
  - split; discriminate.
  - intros j Hj. reflexivity.
  - intros j Hj. reflexivity.
  - rewrite Hrun. reflexivity.
Defined.

Lemma GetProductData_first_product_witness :
  (GetProductData (sample_world always_up) sample_client "4711" start).1
  = Some (Some (sample_product "X" "T1"), None).
Proof.
  rewrite (GetProductData_first_product (sample_world always_up)
             sample_client "4711" start 0
             {| http.Status := "200 OK"; http.StatusCode := 200;
                http.Body := "X" |}
             {| ProductsContainer_Product := [sample_product "X" "T1"] |}).
  - reflexivity.
  - split; discriminate.
  - lia.
  - intros j Hj. reflexivity.
  - intros j Hj. lia.
  - reflexivity.
  - reflexivity.
  - reflexivity.
Defined.

Lemma GetProductAccessoriesFromList_sequential_witness :
  ∃ queryStrings cs oe t',
    createQueryStrings fifty_one 50 = Some queryStrings
    ∧ queried (sample_world up_then_down) sample_client queryStrings start
        cs oe t'
    ∧ match oe with
      | Some e =>
          GetProductAccessoriesFromList (sample_world up_then_down)
            sample_client fifty_one start
          = (Some (None, Some e), t')
      | None =>
          length cs = length queryStrings
          ∧ ∃ result,
              GetProductAccessoriesFromList (sample_world up_then_down)
                sample_client fifty_one start
              = (Some (result, None), t')
              ∧ elems result = concat (ProductsContainer_Product <$> cs)
      end.
Proof.
  apply (GetProductAccessoriesFromList_sequential
           (sample_world up_then_down) sample_client fifty_one start).
  vm_compute. discriminate.
Defined.

Lemma GetProductAccessoriesFromList_bounded_witness :
  ∃ result err t',
    GetProductAccessoriesFromList (sample_world up_then_down) sample_client
      fifty_one start
    = (Some (result, err), t')
    ∧ (is_Some err → result = None)
    ∧ (err = None → fifty_one ≠ [] → is_Some result)
    ∧ (requests start ≤ requests t'
       ≤ requests start + 3 * Z.to_nat (ceil_div (len fifty_one) 50))%nat.
Proof.
  apply (GetProductAccessoriesFromList_bounded (sample_world up_then_down)
           sample_client fifty_one start).
  vm_compute. discriminate.
Defined.

Lemma GetProductAccessoriesFromList_all_up_witness :
  ∃ result t',
    GetProductAccessoriesFromList (sample_world always_up) sample_client
      fifty_one start
    = (Some (result, None), t')
    ∧ elems result = [sample_product "X" "T1"; sample_product "X" "T1"]
    ∧ requests t' = 2%nat.
Proof.
  destruct (GetProductAccessoriesFromList_all_up (sample_world always_up)
              sample_client
              (λ _, {| ProductsContainer_Product :=
                         [sample_product "X" "T1"] |})
              fifty_one start)
    as (result & t' & Hrun & Helems & Hreq & _).
  - split; discriminate.
  - intros i. reflexivity.
  - intros i request. eexists. split; [reflexivity|].
    split; reflexivity.
  - vm_compute. discriminate.
  - exists result, t'. split; [exact Hrun|].
    split; [exact Helems|exact Hreq].
Defined.

Lemma GetProductAccessories_result_witness :
  GetProductAccessories (sample_world always_up) sample_client None start
  = (None, start)
  ∧ ∃ result err t',
      GetProductAccessories (sample_world always_up) sample_client
        (Some sample_bundle) start
      = (Some (result, err), t')
      ∧ (requests start ≤ requests t'
         ≤ requests start
           + 3 * Z.to_nat (ceil_div (len (Accessories sample_bundle)) 50))%nat.
Proof.
  destruct (GetProductAccessories_result (sample_world always_up)
              sample_client sample_bundle start)
    as (Hnil & result & err & t' & Hrun & _ & _ & _ & Hreq).
  - vm_compute. discriminate.
  - split; [exact Hnil|].
    exists result, err, t'. split; [exact Hrun|exact Hreq].
Defined.

Lemma GetServiceTypeAccessoriesOfProduct_errors_witness :
  ∃ outcome t',
    GetServiceTypeAccessoriesOfProduct (sample_world always_500)
      sample_client (Some sample_bundle) start
    = (outcome, t')
    ∧ ∃ result err,
        outcome = Some (result, err)
        ∧ ((∃ out, result = Some out ∧ err = None)
           ∨ (result = None
              ∧ ∃ e, err = Some e
                     ∧ wrapped_in "GetServiceTypeAccessoriesOfProduct" e)).
Proof.
  destruct (GetServiceTypeAccessoriesOfProduct_errors
              (sample_world always_500) sample_client (Some sample_bundle)
              start)
    as (outcome & t' & Hrun & _ & _ & Hres).
  - intros p [= <-]. vm_compute. discriminate.
  - exists outcome, t'. split; [exact Hrun|].
    apply Hres. exists sample_bundle. reflexivity.
Defined.

Lemma GetServiceTypeAccessoriesOfProduct_no_accessories_witness :
  (GetServiceTypeAccessoriesOfProduct (sample_world always_catalog)
     sample_client (Some (sample_product "P" "T0")) start).1
  = Some (Some [], None).
Proof.
  rewrite (GetServiceTypeAccessoriesOfProduct_no_accessories
             (sample_world always_catalog) sample_client
             (sample_product "P" "T0") start
             (GetAllProductTypes (sample_world always_catalog) sample_client
                start).2
             (Some [sample_type "T1" "SSP"])).
  - reflexivity.
  - intros m. reflexivity.
  - reflexivity.
  - vm_compute. reflexivity.
Defined.

Lemma GetServiceTypeAccessoriesOfProduct_missing_credentials_witness :
  ∃ e,
    GetServiceTypeAccessoriesOfProduct (sample_world always_catalog)
      anonymous_client (Some (sample_product "P" "T0")) start
    = (Some (None, Some e), start)
    ∧ missing_credentials e
    ∧ wrapped_in "GetServiceTypeAccessoriesOfProduct" e.
Proof.
  apply (GetServiceTypeAccessoriesOfProduct_missing_credentials
           (sample_world always_catalog) anonymous_client
           (Some (sample_product "P" "T0")) start).
  left. reflexivity.
Defined.



Lemma GetProductsFromQuery_never_not_found_witness :
  StatusCode {| Message := "500 Internal Server Error"; StatusCode := 500 |}
  ≠ http.StatusNotFound
  ∧ StatusCode {| Message := "500 Internal Server Error"; StatusCode := 500 |}
    ≠ http.StatusOK
  ∧ UnexpectedStatusCodeError_Is ErrNotFound
      (PointerTarget
         {| Message := "500 Internal Server Error"; StatusCode := 500 |})
    = false.
Proof.
  apply (GetProductsFromQuery_never_not_found (sample_world always_500)
           sample_client "id=1" start
           (GetProductsFromQuery (sample_world always_500) sample_client
              "id=1" start).2
           None).
  - intros body e Hd u' ->. simpl in Hd. case_bool_decide; discriminate.
  - vm_compute. reflexivity.
Defined.

Lemma new_client_requests_witness :
  ∃ result t' j request,
    GetProductsFromQuery (sample_world always_up)
      (SetLanguage (New "acme" "user" "secret" "de") "en") "id=1" start
    = (Some result, t')
    ∧ (j ≤ 3)%nat
    ∧ sent t' = sent start ++ replicate j request
    ∧ request
      = {| http.Method := "GET";
           http.URL :=
             "https://api.itscope.com/2.0/products/search/id%3D1/standard.json?realtime=false&plzproducts=false&page=1&item=0&sort=DEFAULT";
           http.Header :=
             <["Accept-Language" := ["en"]]>
               (<["Useragent" := ["acme-ITS_ApiModule-0.1"]]>
                  (<["Accept" := ["application/json"]]>
                     (<["Authorization" := ["Basic dXNlcjpzZWNyZXQ="]]>
                        ∅))) |}
    ∧ http.Header request !! "UserAgent" = None
    ∧ http.Header request !! "User-Agent" = None.
Proof.
  apply (new_client_requests (sample_world always_up) "acme" "user" "secret"
           "de" "en" "id=1" start); discriminate.
Defined.
